(** * The application lifecycle of the job-placement server

    A shallow embedding of the Express routes of
    [server/routes/applications.js] together with the Mongoose models they
    use ([models/Application.js], [models/Job.js]), followed by the
    properties of the status / timeline workflow.

    Modelling conventions.
    - An [ObjectId] is a natural number ([N]); a collection is a finite map
      from [_id] to document ([gmap]).  A route that takes [:id] receives
      a well-formed id, so [validateObjectId] always passes.
    - A JavaScript [Date] is its number of milliseconds since the epoch
      ([Z]).  One request reads the clock once: every [new Date()] of a
      handler (and of the hooks its [save] triggers) is the same [now].
    - A JavaScript [Number] that holds an integer is that integer ([Z]);
      arithmetic on it rounds to the nearest double ([Number_round]).
    - Strings are [string]; the cover letter, whose length is measured,
      is the list of its UTF-16 code units.  An absent ([undefined]) field
      is [None].
    - A handler returns its response and the database it leaves behind:
      [(inl failure, st')] or [(inr payload, st')].  An exception caught by
      the handler's [try]/[catch] is the response [ServerError]. *)

From stdpp Require Import gmap strings list fin_maps fin_sets infinite sorting.
From Stdlib Require Import ZArith.

Abbreviation ObjectId := N (only parsing).
Abbreviation Date := Z (only parsing).

(** ** JavaScript values *)

(** A JavaScript string as its UTF-16 code units; [length] is its
    [.length]. *)
Abbreviation JSString := (list N) (only parsing).

(** The matches of [/[\uD800-\uDBFF][\uDC00-\uDFFF]/g]: a leading surrogate
    followed by a trailing one, scanned from the left. *)
Fixpoint surrogatePairs (str : JSString) : nat :=
  match str with
  | hi :: tl =>
      match tl with
      | lo :: rest =>
          if bool_decide (55296 ≤ hi ≤ 56319)%N && bool_decide (56320 ≤ lo ≤ 57343)%N
          then S (surrogatePairs rest)
          else surrogatePairs tl
      | [] => 0
      end
  | [] => 0
  end.

(** The matches of [/(\uFE0F|\uFE0E)/g]: the variation selectors. *)
Definition presentationSequences (str : JSString) : nat :=
  length (filter (λ u, u = 65039%N ∨ u = 65038%N) str).

(** validator.js's [isLength(str, { max })], which express-validator's
    [.isLength] runs: [str.length - presentationSequences.length -
    surrogatePairs.length], compared with [max] ([min] is 0). *)
Definition isLength (str : JSString) (max : nat) : bool :=
  bool_decide (length str - presentationSequences str - surrogatePairs str ≤ max)%nat.

(** The double nearest to the integer [m], ties to the even significand:
    the value of an integer-valued [Number] expression whose exact result
    is [m] (below the overflow at 2^1024).  Up to 2^53 every integer is
    a double. *)
Definition Number_round (m : Z) : Z :=
  if decide (Z.abs m ≤ 2 ^ 53)%Z then m
  else
    let a := Z.abs m in
    let ulp := (2 ^ (Z.log2 a - 52))%Z in
    let q := (a / ulp)%Z in
    let r := (a mod ulp)%Z in
    (Z.sgn m * (ulp * (if decide (2 * r < ulp)%Z then q
                       else if decide (ulp < 2 * r)%Z then q + 1
                       else if Z.even q then q else q + 1)))%Z.

(** [parseInt(text)] for the decimal numeral of [n], a finite double
    for [n] below 2^1023. *)
Definition parseInt (n : Z) : Z := Number_round n.

(** ** Documents *)

Module User.
(** [role: enum ['student', 'recruiter', 'admin']] of the user schema. *)
Inductive Role := student | recruiter | admin.

#[global] Instance Role_eq_dec : EqDecision Role.
Proof. solve_decision. Defined.

(** [req.user]: the authenticated caller, as far as the routes read it. *)
Record t := mk { _id : ObjectId; role : Role }.
End User.

Module Job.
(** The fields of [jobSchema] that the application routes read or write. *)
Record t := mk {
  recruiter : ObjectId;
  status : string;
  applicationDeadline : option Date;
  applicationCount : Z
}.

(** [jobSchema.methods.incrementApplicationCount], before its [save]:
    [this.applicationCount += 1], an addition of doubles. *)
Definition incrementApplicationCount (this : t) : t :=
  mk (recruiter this) (status this) (applicationDeadline this)
     (Number_round (applicationCount this + 1)).
End Job.

Module TimelineEntry.
Record t := mk {
  status : string;
  date : Date;
  note : string;
  updatedBy : option ObjectId
}.
End TimelineEntry.

Module Interview.
Record t := mk {
  scheduled : bool;
  date : Date;
  time : option string;
  location : option string;
  type : option string;
  notes : option string
}.

(** [enum: ['phone', 'video', 'in-person']] *)
Definition typeEnum : list string := ["phone"; "video"; "in-person"].
End Interview.

Module Resume.
Record t := mk {
  filename : option string;
  originalName : option string;
  path : option string;
  size : option Z;
  mimetype : option string
}.
End Resume.

Module Answer.
Record t := mk { question : string; answer : string }.
End Answer.

Module Notes.
Record t := mk {
  recruiter : option string;
  student : option string;
  admin : option string
}.

Definition empty : t := mk None None None.
End Notes.

Module Feedback.
Record t := mk {
  rating : option Z;
  comments : option string;
  strengths : list string;
  improvements : list string
}.
End Feedback.

Module Application.
Record t := mk {
  job : ObjectId;
  student : ObjectId;
  recruiter : ObjectId;
  status : string;
  coverLetter : option JSString;
  resume : option Resume.t;
  answers : list Answer.t;
  notes : Notes.t;
  timeline : list TimelineEntry.t;
  interview : option Interview.t;
  feedback : option Feedback.t;
  createdAt : Date;
  updatedAt : Date
}.

(** [enum] of the [status] path. *)
Definition statusEnum : list string :=
  ["pending"; "under_review"; "interview"; "approved"; "rejected"; "withdrawn"].

Definition set_status (a : t) (s : string) : t :=
  mk (job a) (student a) (recruiter a) s (coverLetter a) (resume a)
     (answers a) (notes a) (timeline a) (interview a) (feedback a)
     (createdAt a) (updatedAt a).

Definition set_timeline (a : t) (tl : list TimelineEntry.t) : t :=
  mk (job a) (student a) (recruiter a) (status a) (coverLetter a) (resume a)
     (answers a) (notes a) tl (interview a) (feedback a)
     (createdAt a) (updatedAt a).

Definition set_interview (a : t) (i : Interview.t) : t :=
  mk (job a) (student a) (recruiter a) (status a) (coverLetter a) (resume a)
     (answers a) (notes a) (timeline a) (Some i) (feedback a)
     (createdAt a) (updatedAt a).

Definition set_updatedAt (a : t) (d : Date) : t :=
  mk (job a) (student a) (recruiter a) (status a) (coverLetter a) (resume a)
     (answers a) (notes a) (timeline a) (interview a) (feedback a)
     (createdAt a) d.

(** The validators of [applicationSchema], run by every [save]:
    the [status] enum, [coverLetter]'s [maxlength] (on [.length], the
    number of code units), the enum of [interview.type], and [min]/[max]
    of [feedback.rating]. *)
Definition validate (a : t) : bool :=
  bool_decide (status a ∈ statusEnum)
  && match coverLetter a with
     | Some c => bool_decide (length c ≤ 2000)%nat
     | None => true
     end
  && match interview a with
     | Some i =>
         match Interview.type i with
         | Some ty => bool_decide (ty ∈ Interview.typeEnum)
         | None => true
         end
     | None => true
     end
  && match feedback a with
     | Some f =>
         match Feedback.rating f with
         | Some r => bool_decide (1 ≤ r ≤ 5)%Z
         | None => true
         end
     | None => true
     end.
End Application.

(** ** The database *)

Record State := mkState {
  users : gmap N User.Role;
  jobs : gmap N Job.t;
  applications : gmap N Application.t
}.

Definition set_jobs (st : State) (js : gmap N Job.t) : State :=
  mkState (users st) js (applications st).

Definition set_applications (st : State) (as_ : gmap N Application.t) : State :=
  mkState (users st) (jobs st) as_.

(** ** Mongoose documents and [save] *)

(** A document in memory: its fields, whether it was built by the program
    ([isNew]) or loaded from the collection, and whether [status] was
    assigned a value different from the one it held ([isModified('status')]). *)
Record Document := mkDocument {
  this : Application.t;
  isNew : bool;
  isModified_status : bool
}.

Definition Application_findById (st : State) (id : ObjectId) : option Document :=
  (λ a, mkDocument a false false) <$> applications st !! id.

(** [doc.status = s]: an assignment of the value the path already holds
    leaves the path unmodified. *)
Definition assign_status (d : Document) (s : string) : Document :=
  if decide (Application.status (this d) = s) then d
  else mkDocument (Application.set_status (this d) s) (isNew d) true.

(** [doc.timeline.push(e)] *)
Definition timeline_push (d : Document) (e : TimelineEntry.t) : Document :=
  mkDocument
    (Application.set_timeline (this d) (Application.timeline (this d) ++ [e]))
    (isNew d) (isModified_status d).

(** [doc.interview = i] *)
Definition assign_interview (d : Document) (i : Interview.t) : Document :=
  mkDocument (Application.set_interview (this d) i) (isNew d) (isModified_status d).

(** [applicationSchema.pre('save', ...)]: "Add timeline entry when status
    changes". *)
Definition pre_save (now : Date) (d : Document) : Document :=
  if isModified_status d && negb (isNew d) then
    timeline_push d
      (TimelineEntry.mk (Application.status (this d)) now
         ("Status changed to " +:+ Application.status (this d)) None)
  else d.

(** The query [{ job: j, student: s }]. *)
Definition applied (j s : ObjectId) (a : Application.t) : Prop :=
  Application.job a = j ∧ Application.student a = s.

#[global] Instance applied_dec j s a : Decision (applied j s a).
Proof. unfold applied. apply _. Defined.

(** [Application.findOne({ job: j, student: s })] *)
Definition Application_findOne (st : State) (j s : ObjectId)
  : option (ObjectId * Application.t) :=
  head (filter (λ kv, applied j s kv.2) (map_to_list (applications st))).

(** [doc.save()] for the document stored under [id].  Validation comes
    first, then the schema's pre-save hook, then the write; [timestamps]
    refreshes [updatedAt].  An insert is refused by the unique index
    [{ job: 1, student: 1 }] when the pair is taken.  [None] is the
    rejected promise. *)
Definition Application_save (st : State) (now : Date) (id : ObjectId) (d : Document)
  : option (Application.t * State) :=
  if Application.validate (this d) then
    let a := Application.set_updatedAt (this (pre_save now d)) now in
    if isNew d
       && bool_decide (is_Some (Application_findOne st
                                  (Application.job a) (Application.student a)))
    then None
    else Some (a, set_applications st (<[id := a]> (applications st)))
  else None.

(** [Application.create({ job, student, recruiter, coverLetter, answers,
    timeline })]: the other paths take their defaults ([status] is
    ['pending']), the driver picks an unused [_id].  [timestamps] stamps
    [createdAt] and [updatedAt] inside [save], from a reading of the clock
    of its own, taken here at the request's [now]. *)
Definition Application_create (st : State) (now : Date)
    (job student recruiter : ObjectId) (coverLetter : option JSString)
    (answers : list Answer.t) (timeline : list TimelineEntry.t)
  : option (ObjectId * Application.t * State) :=
  let id := fresh (dom (applications st)) in
  let a := Application.mk job student recruiter "pending" coverLetter None
             answers Notes.empty timeline None None now now in
  match Application_save st now id (mkDocument a true false) with
  | Some (a', st') => Some (id, a', st')
  | None => None
  end.

(** [jobSchema.methods.incrementApplicationCount]:
    [this.applicationCount += 1; return this.save()]. *)
Definition Job_incrementApplicationCount (st : State) (id : ObjectId) (job : Job.t)
  : State :=
  set_jobs st (<[id := Job.incrementApplicationCount job]> (jobs st)).

(** ** Requests and responses *)

(** The failure responses of the application routes: HTTP status and
    [message] are given by [http_status] and [message] below.  The names
    are the error kinds of the interface; where two responses share a kind
    the suffix tells them apart. *)
Inductive Failure :=
  | NotFoundJob
  | InvalidStateJob
  | Expired
  | Conflict
  | NotFoundApplication
  | Forbidden
  | ForbiddenRole
  | InvalidStatus
  | InvalidStateWithdraw
  | ValidationError
  | ServerError.

#[global] Instance Failure_eq_dec : EqDecision Failure.
Proof. solve_decision. Defined.

Definition http_status (f : Failure) : Z :=
  match f with
  | NotFoundJob | NotFoundApplication => 404
  | Forbidden | ForbiddenRole => 403
  | InvalidStateJob | Expired | Conflict | InvalidStatus
  | InvalidStateWithdraw | ValidationError => 400
  | ServerError => 500
  end.

(** The [message] of each response that the sources at hand spell out. *)
Definition message (f : Failure) : option string :=
  match f with
  | NotFoundJob => Some "Job not found"
  | InvalidStateJob => Some "This job is no longer accepting applications"
  | Expired => Some "Application deadline has passed"
  | Conflict => Some "You have already applied for this job"
  | NotFoundApplication => Some "Application not found"
  | Forbidden => Some "Access denied"
  | ForbiddenRole => None
  | InvalidStatus => Some "Invalid status"
  | InvalidStateWithdraw => Some "Cannot withdraw application at this stage"
  | ValidationError => Some "Validation failed"
  | ServerError => Some "Server error"
  end.

Definition Response (A : Type) : Type := (Failure + A) * State.

(** Modelled from the spec: [authorize] of [middleware/auth.js], which is
    not among the sources.  The routes call it with the roles they let in;
    the spec describes it as a role check whose failure is the
    authorization error [Forbidden]. *)
Definition authorize (roles : list User.Role) (user : User.t) : bool :=
  bool_decide (User.role user ∈ roles).

(** [req.body.jobId] as [Job.findById] takes it: a value that casts to an
    [ObjectId], no value at all, or a value that does not cast (no
    middleware of the route looks at it). *)
Inductive JobIdParam :=
  | JobId (id : ObjectId)
  | JobId_undefined
  | JobId_uncastable.

(** [req.body] of [POST /api/applications]. *)
Record ApplyBody := mkApplyBody {
  jobId : JobIdParam;
  coverLetter : option JSString;
  answers : list Answer.t
}.

(** [validateApplication]:
    [body('coverLetter').optional().isLength({ max: 2000 })]. *)
Definition validateApplication (body : ApplyBody) : bool :=
  match coverLetter body with
  | Some c => isLength c 2000
  | None => true
  end.

(** [req.body] of [PUT /api/applications/:id/interview]. *)
Record InterviewBody := mkInterviewBody {
  date : option string;
  time : option string;
  location : option string;
  type : option string;
  notes : option string
}.

(** [note || dflt]: the empty string is falsy, as is [undefined]. *)
Definition or_else (note : option string) (dflt : string) : string :=
  match note with
  | Some (String c r) => String c r
  | Some EmptyString | None => dflt
  end.

(** [new Date(v)] for a string or absent [v].  [Date_] is JavaScript's
    date parser: [None] is [Invalid Date], and so is the date built from
    [undefined]. *)
Definition new_Date (Date_ : string → option Date) (v : option string)
  : option Date :=
  match v with
  | Some text => Date_ text
  | None => None
  end.

(** A value interpolated in a template literal. *)
Definition interpolate (v : option string) : string :=
  match v with
  | Some s => s
  | None => "undefined"
  end.

(** ** The routes *)

(** [POST /api/applications] -- "Apply for a job".  [Job.findById]
    rejects with a [CastError] on a [jobId] that does not cast, and looks
    for [_id: null] when there is none. *)
Definition submitApplication (st : State) (now : Date) (user : User.t)
    (body : ApplyBody) : Response (ObjectId * Application.t) :=
  if negb (authorize [User.student] user) then (inl ForbiddenRole, st)
  else if negb (validateApplication body) then (inl ValidationError, st)
  else
    match jobId body with
    | JobId_uncastable => (inl ServerError, st)
    | JobId_undefined => (inl NotFoundJob, st)
    | JobId jobId =>
        match jobs st !! jobId with
        | None => (inl NotFoundJob, st)
        | Some job =>
            if negb (bool_decide (Job.status job = "active")) then
              (inl InvalidStateJob, st)
            else if match Job.applicationDeadline job with
                    | Some deadline => bool_decide (deadline < now)%Z
                    | None => false
                    end
            then (inl Expired, st)
            else
              match Application_findOne st jobId (User._id user) with
              | Some _ => (inl Conflict, st)
              | None =>
                  (* [job.recruiter._id] of the populated path: a reference
                     that resolves to no user is [null], and the access
                     throws *)
                  match users st !! Job.recruiter job with
                  | None => (inl ServerError, st)
                  | Some _ =>
                      match Application_create st now jobId (User._id user)
                              (Job.recruiter job) (coverLetter body) (answers body)
                              [TimelineEntry.mk "pending" now "Application submitted" None]
                      with
                      | None => (inl ServerError, st)
                      | Some (id, a, st1) =>
                          (inr (id, a),
                           Job_incrementApplicationCount st1 jobId job)
                      end
                  end
              end
        end
    end.

(** [GET /api/applications/:id] -- "Get single application".  The
    [student] and [recruiter] paths are populated; [._id] of a reference
    that resolves to no user throws. *)
Definition getApplication (st : State) (user : User.t) (id : ObjectId)
  : Response Application.t :=
  match Application_findById st id with
  | None => (inl NotFoundApplication, st)
  | Some d =>
      let application := this d in
      match users st !! Application.student application with
      | None => (inl ServerError, st)
      | Some _ =>
          if bool_decide (Application.student application = User._id user) then
            (inr application, st)
          else
            match users st !! Application.recruiter application with
            | None => (inl ServerError, st)
            | Some _ =>
                if bool_decide (Application.recruiter application = User._id user)
                   || bool_decide (User.role user = User.admin)
                then (inr application, st)
                else (inl Forbidden, st)
            end
      end
  end.

Definition validStatuses : list string :=
  ["pending"; "under_review"; "interview"; "approved"; "rejected"].

(** [PUT /api/applications/:id/status] -- "Update application status". *)
Definition updateStatus (st : State) (now : Date) (user : User.t) (id : ObjectId)
    (status : string) (note : option string) : Response Application.t :=
  if negb (authorize [User.recruiter; User.admin] user) then (inl ForbiddenRole, st)
  else if negb (bool_decide (status ∈ validStatuses)) then (inl InvalidStatus, st)
  else
    match Application_findById st id with
    | None => (inl NotFoundApplication, st)
    | Some application =>
        if bool_decide (User.role user = User.recruiter)
           && negb (bool_decide
                      (Application.recruiter (this application) = User._id user))
        then (inl Forbidden, st)
        else
          let application := assign_status application status in
          let application :=
            timeline_push application
              (TimelineEntry.mk status now
                 (or_else note ("Status changed to " +:+ status))
                 (Some (User._id user))) in
          match Application_save st now id application with
          | None => (inl ServerError, st)
          | Some (a, st') => (inr a, st')
          end
    end.

(** [PUT /api/applications/:id/interview] -- "Schedule interview".
    The [Date] path refuses to cast an [Invalid Date], so that [save]
    rejects and nothing is written. *)
Definition scheduleInterview (Date_ : string → option Date)
    (st : State) (now : Date) (user : User.t) (id : ObjectId)
    (body : InterviewBody) : Response Application.t :=
  if negb (authorize [User.recruiter; User.admin] user) then (inl ForbiddenRole, st)
  else
    match Application_findById st id with
    | None => (inl NotFoundApplication, st)
    | Some application =>
        if bool_decide (User.role user = User.recruiter)
           && negb (bool_decide
                      (Application.recruiter (this application) = User._id user))
        then (inl Forbidden, st)
        else
          match new_Date Date_ (date body) with
          | None => (inl ServerError, st)
          | Some d =>
              let application :=
                assign_interview application
                  (Interview.mk true d (time body) (location body)
                     (type body) (notes body)) in
              let application := assign_status application "interview" in
              let application :=
                timeline_push application
                  (TimelineEntry.mk "interview" now
                     ("Interview scheduled for " +:+ interpolate (date body)
                        +:+ " at " +:+ interpolate (time body))
                     (Some (User._id user))) in
              match Application_save st now id application with
              | None => (inl ServerError, st)
              | Some (a, st') => (inr a, st')
              end
          end
    end.

(** [PUT /api/applications/:id/withdraw] -- "Withdraw application". *)
Definition withdraw (st : State) (now : Date) (user : User.t) (id : ObjectId)
  : Response unit :=
  if negb (authorize [User.student] user) then (inl ForbiddenRole, st)
  else
    match Application_findById st id with
    | None => (inl NotFoundApplication, st)
    | Some application =>
        if negb (bool_decide
                   (Application.student (this application) = User._id user))
        then (inl Forbidden, st)
        else if bool_decide
                  (Application.status (this application) ∈ ["approved"; "rejected"])
        then (inl InvalidStateWithdraw, st)
        else
          let application := assign_status application "withdrawn" in
          let application :=
            timeline_push application
              (TimelineEntry.mk "withdrawn" now
                 "Application withdrawn by student" None) in
          match Application_save st now id application with
          | None => (inl ServerError, st)
          | Some (_, st') => (inr (), st')
          end
    end.

(** ** Runs of the server *)

(** The three status-changing operations, as one request type. *)
Inductive StatusOp :=
  | UpdateStatus (status : string) (note : option string)
  | ScheduleInterview (Date_ : string → option Date) (body : InterviewBody)
  | Withdraw.

Definition void {A} (r : Response A) : Response unit :=
  (match r.1 with inl f => inl f | inr _ => inr () end, r.2).

Definition perform (st : State) (now : Date) (user : User.t) (id : ObjectId)
    (op : StatusOp) : Response unit :=
  match op with
  | UpdateStatus status note => void (updateStatus st now user id status note)
  | ScheduleInterview Date_ body => void (scheduleInterview Date_ st now user id body)
  | Withdraw => withdraw st now user id
  end.

(** Modelled from the spec: [protect] of [middleware/auth.js], which is not
    among the sources.  The caller of a route is an authenticated
    principal: [req.user] is an account of the user collection, with the
    role stored there. *)
Definition authenticated (st : State) (user : User.t) : Prop :=
  users st !! User._id user = Some (User.role user).

(** One request served.  The last rule stands for the read-only routes
    and for the routes outside the application router: they write jobs
    freely, add accounts, and never remove an account, change its role or
    write an application. *)
Inductive step : State → State → Prop :=
  | step_submit st now user body r st' :
      authenticated st user →
      submitApplication st now user body = (r, st') →
      step st st'
  | step_status st now user id op r st' :
      authenticated st user →
      perform st now user id op = (r, st') →
      step st st'
  | step_other st st' :
      applications st' = applications st →
      users st ⊆ users st' →
      step st st'.

(** The states of a server started on an empty application collection. *)
Inductive reachable : State → Prop :=
  | reachable_init us js : reachable (mkState us js ∅)
  | reachable_step st st' : reachable st → step st st' → reachable st'.

(** What every reachable database satisfies. *)
Record Inv (st : State) : Prop := mkInv {
  inv_unique : ∀ i1 i2 a1 a2,
    applications st !! i1 = Some a1 → applications st !! i2 = Some a2 →
    Application.job a1 = Application.job a2 →
    Application.student a1 = Application.student a2 → i1 = i2;
  inv_valid : ∀ i a,
    applications st !! i = Some a → Application.validate a = true;
  inv_student : ∀ i a,
    applications st !! i = Some a →
    users st !! Application.student a = Some User.student;
  inv_recruiter : ∀ i a,
    applications st !! i = Some a →
    is_Some (users st !! Application.recruiter a)
}.

(** The entry that the pre-save hook adds when [status] goes from [old]
    to [new]. *)
Definition hook_entries (old new : string) (now : Date) : list TimelineEntry.t :=
  if decide (old = new) then []
  else [TimelineEntry.mk new now ("Status changed to " +:+ new) None].

(** The paths that no status-changing route assigns. *)
Definition same_frame (a a' : Application.t) : Prop :=
  Application.job a' = Application.job a
  ∧ Application.student a' = Application.student a
  ∧ Application.recruiter a' = Application.recruiter a
  ∧ Application.coverLetter a' = Application.coverLetter a
  ∧ Application.resume a' = Application.resume a
  ∧ Application.answers a' = Application.answers a
  ∧ Application.notes a' = Application.notes a
  ∧ Application.feedback a' = Application.feedback a.

(** The record that [save] writes after a route assigned [status := s]
    and pushed the entry [e] on the loaded document [a]. *)
Definition saved_after (a : Application.t) (s : string) (e : TimelineEntry.t)
    (now : Date) : Application.t :=
  Application.mk (Application.job a) (Application.student a)
    (Application.recruiter a) s (Application.coverLetter a)
    (Application.resume a) (Application.answers a) (Application.notes a)
    (Application.timeline a ++ e :: hook_entries (Application.status a) s now)
    (Application.interview a) (Application.feedback a)
    (Application.createdAt a) now.

(** The status that an operation assigns. *)
Definition op_status (op : StatusOp) : string :=
  match op with
  | UpdateStatus status _ => status
  | ScheduleInterview _ _ => "interview"
  | Withdraw => "withdrawn"
  end.

(** The record that a successful submission creates. *)
Definition submitted (now : Date) (user : User.t) (jobId : ObjectId)
    (body : ApplyBody) (job : Job.t) : Application.t :=
  Application.mk jobId (User._id user) (Job.recruiter job) "pending"
    (coverLetter body) None (answers body) Notes.empty
    [TimelineEntry.mk "pending" now "Application submitted" None]
    None None now now.

(** ** A small database

    One student, two recruiters and an administrator; two active jobs of
    recruiter [R]: [J] has no deadline, [K] closes at time 1000. *)
Module Scenario.
Definition S : User.t := User.mk 1 User.student.
Definition R : User.t := User.mk 2 User.recruiter.
Definition A : User.t := User.mk 3 User.admin.
Definition R' : User.t := User.mk 4 User.recruiter.
Definition J : ObjectId := 10.
Definition K : ObjectId := 11.

Definition db0 : State :=
  mkState
    {[ 1%N := User.student; 2%N := User.recruiter;
       3%N := User.admin; 4%N := User.recruiter ]}
    {[ J := Job.mk 2 "active" None 0;
       K := Job.mk 2 "active" (Some 1000%Z) 0 ]}
    ∅.

(** S applies to J at time 1000; the record gets the id 0. *)
Definition db1 : State :=
  (submitApplication db0 1000 S (mkApplyBody (JobId J) None [])).2.

(** R moves the application to the interview stage at time 2000. *)
Definition db2 : State :=
  (updateStatus db1 2000 R 0 "interview" (Some "Let's talk")).2.

Definition application (st : State) : option Application.t :=
  applications st !! 0%N.

(** A parser that reads one date. *)
Definition Date_ (text : string) : option Date :=
  if decide (text = "2024-01-25") then Some 1706140800000%Z else None.

Definition interviewBody : InterviewBody :=
  mkInterviewBody (Some "2024-01-25") (Some "2:00 PM") (Some "Video call")
    (Some "video") None.


End Scenario.

(** ** Listing, statistics and the job routes that applications meet *)

Module Query.
(** A filter document of [Application.find], [countDocuments] and
    [$match]: the paths that the routes constrain. *)
Record t := mk {
  job : option ObjectId;
  student : option ObjectId;
  recruiter : option ObjectId;
  status : option string
}.

(** [{}] *)
Definition empty : t := mk None None None None.
End Query.

(** A document satisfies a filter when every constrained path is equal. *)
Definition matches (q : Query.t) (a : Application.t) : Prop :=
  match Query.job q with Some j => Application.job a = j | None => True end
  ∧ match Query.student q with
    | Some s => Application.student a = s
    | None => True
    end
  ∧ match Query.recruiter q with
    | Some r => Application.recruiter a = r
    | None => True
    end
  ∧ match Query.status q with
    | Some s => Application.status a = s
    | None => True
    end.

#[global] Instance matches_dec q a : Decision (matches q a).
Proof.
  unfold matches.
  destruct (Query.job q), (Query.student q), (Query.recruiter q),
    (Query.status q); apply _.
Defined.

(** [Application.find(q)], before any sort. *)
Definition Application_find (st : State) (q : Query.t)
  : list (ObjectId * Application.t) :=
  filter (λ kv, matches q kv.2) (map_to_list (applications st)).

(** [Application.countDocuments(q)] *)
Definition Application_countDocuments (st : State) (q : Query.t) : nat :=
  length (Application_find st q).

(** [.sort('-createdAt')]: newest first.  The database leaves the order
    of documents of equal [createdAt] open; here it is the one of the
    sort below. *)
Definition newest_first (x y : ObjectId * Application.t) : Prop :=
  (Application.createdAt y.2 ≤ Application.createdAt x.2)%Z.

#[global] Instance newest_first_dec x y : Decision (newest_first x y).
Proof. unfold newest_first. apply _. Defined.

Definition sort_createdAt_desc (l : list (ObjectId * Application.t))
  : list (ObjectId * Application.t) :=
  merge_sort newest_first l.

Module ListQuery.
(** [req.query] of the two listing routes.  [page] and [limit] are the
    integers that the query strings denote. *)
Record t := mk {
  page : option Z;
  limit : option Z;
  status : option string;
  jobId : option ObjectId
}.
End ListQuery.

(** [validatePagination]: [page] optional, an integer of at least 1;
    [limit] optional, an integer between 1 and 100. *)
Definition validatePagination (q : ListQuery.t) : bool :=
  match ListQuery.page q with
  | Some p => bool_decide (1 ≤ p)%Z
  | None => true
  end
  && match ListQuery.limit q with
     | Some l => bool_decide (1 ≤ l ≤ 100)%Z
     | None => true
     end.

(** [if (v) ...] on a string or absent [v]: the empty string is falsy. *)
Definition truthy (v : option string) : option string :=
  match v with
  | Some (String c r) => Some (String c r)
  | Some EmptyString | None => None
  end.

(** [Math.ceil(n / d)] for integers [n] and [d > 0]; the quotient of
    doubles has the same ceiling for [d] up to 100 and [n] below 2^46. *)
Definition Math_ceil_div (n d : Z) : Z := (- ((- n) / d))%Z.

Module Pagination.
Record t := mk { page : Z; limit : Z; total : Z; pages : Z }.
End Pagination.

Module Listing.
Record t := mk {
  applications : list (ObjectId * Application.t);
  pagination : Pagination.t
}.
End Listing.

(** [GET /api/applications/my] -- "Get user's applications".  [page]
    and [limit] are the integers that the query strings spell;
    [parseInt] reads them as doubles, and the response reports those.  The
    window is taken on the integers: the doubles of the code's [skip]
    agree with them up to 2^53, and from there on both skip past any
    collection of fewer than 2^53 documents.  (A database server that
    refuses a [skip] of 2^63 or more makes the route answer 500 there,
    with no page at all.) *)
Definition myApplications (st : State) (user : User.t) (q : ListQuery.t)
  : Response Listing.t :=
  if negb (authorize [User.student] user) then (inl ForbiddenRole, st)
  else if negb (validatePagination q) then (inl ValidationError, st)
  else
    let page := default 1%Z (ListQuery.page q) in
    let limit := default 10%Z (ListQuery.limit q) in
    let query :=
      Query.mk None (Some (User._id user)) None (truthy (ListQuery.status q)) in
    let skip := ((page - 1) * limit)%Z in
    let applications :=
      take (Z.to_nat limit)
        (drop (Z.to_nat skip) (sort_createdAt_desc (Application_find st query))) in
    let total := Z.of_nat (Application_countDocuments st query) in
    (inr (Listing.mk applications
            (Pagination.mk (parseInt page) (parseInt limit) total
               (Math_ceil_div total (parseInt limit)))),
     st).

(** [GET /api/applications/received] -- "Get applications for recruiter's
    jobs".  Pages as in [myApplications]. *)
Definition receivedApplications (st : State) (user : User.t) (q : ListQuery.t)
  : Response Listing.t :=
  if negb (authorize [User.recruiter] user) then (inl ForbiddenRole, st)
  else if negb (validatePagination q) then (inl ValidationError, st)
  else
    let page := default 1%Z (ListQuery.page q) in
    let limit := default 10%Z (ListQuery.limit q) in
    let query :=
      Query.mk (ListQuery.jobId q) None (Some (User._id user))
        (truthy (ListQuery.status q)) in
    let skip := ((page - 1) * limit)%Z in
    let applications :=
      take (Z.to_nat limit)
        (drop (Z.to_nat skip) (sort_createdAt_desc (Application_find st query))) in
    let total := Z.of_nat (Application_countDocuments st query) in
    (inr (Listing.mk applications
            (Pagination.mk (parseInt page) (parseInt limit) total
               (Math_ceil_div total (parseInt limit)))),
     st).

(** The stage [{ $group: { _id: '$status', count: { $sum: 1 } } }] on the
    documents that passed [$match]. *)
Definition group_by_status (docs : list (ObjectId * Application.t))
  : gmap string nat :=
  foldr (λ kv groups,
           <[Application.status kv.2 :=
               S (default 0%nat (groups !! Application.status kv.2))]> groups)
    ∅ docs.

(** [Application.aggregate([{ $match: q }, { $group: ... }])]: one
    [(_id, count)] per status met. *)
Definition Application_aggregate (st : State) (q : Query.t)
  : list (string * nat) :=
  map_to_list (group_by_status (Application_find st q)).

Module Stats.
Record t := mk { total : nat; byStatus : gmap string nat }.
End Stats.

(** [GET /api/applications/stats/overview] -- "Get application
    statistics". *)
Definition statsOverview (st : State) (user : User.t) : Response Stats.t :=
  if negb (authorize [User.recruiter; User.admin] user) then
    (inl ForbiddenRole, st)
  else
    let matchQuery :=
      if bool_decide (User.role user = User.recruiter)
      then Query.mk None None (Some (User._id user)) None
      else Query.empty in
    let stats := Application_aggregate st matchQuery in
    let totalApplications := Application_countDocuments st matchQuery in
    let statusStats :=
      foldl (λ acc stat, <[stat.1 := stat.2]> acc) (∅ : gmap string nat) stats in
    (inr (Stats.mk totalApplications statusStats), st).

(** [DELETE /api/jobs/:id] -- "Delete job", of the job router. *)
Definition deleteJob (st : State) (user : User.t) (id : ObjectId)
  : Response unit :=
  match jobs st !! id with
  | None => (inl NotFoundJob, st)
  | Some job =>
      if negb (bool_decide (Job.recruiter job = User._id user))
         && negb (bool_decide (User.role user = User.admin))
      then (inl Forbidden, st)
      else (inr (), set_jobs st (delete id (jobs st)))
  end.

(** [validStatuses] of [PUT /api/admin/jobs/:id/status]. *)
Definition validStatuses_job : list string :=
  ["pending"; "approved"; "rejected"; "active"; "closed"].

(** [PUT /api/admin/jobs/:id/status] -- "Update job status", of the admin
    router, which is behind [authorize('admin')].  [adminNotes] is a path
    outside [Job.t]. *)
Definition adminUpdateJobStatus (st : State) (user : User.t) (id : ObjectId)
    (status : string) : Response Job.t :=
  if negb (authorize [User.admin] user) then (inl ForbiddenRole, st)
  else if negb (bool_decide (status ∈ validStatuses_job)) then
    (inl InvalidStatus, st)
  else
    match jobs st !! id with
    | None => (inl NotFoundJob, st)
    | Some job =>
        let job := Job.mk (Job.recruiter job) status
                     (Job.applicationDeadline job) (Job.applicationCount job) in
        (inr job, set_jobs st (<[id := job]> (jobs st)))
    end.

(** "Update job application counts" of the seed script: for each job,
    [job.applicationCount = await Application.countDocuments({ job:
    job._id })], then [job.save()]. *)
Definition updateApplicationCounts (st : State) (ids : list ObjectId) : State :=
  foldl (λ st id,
           match jobs st !! id with
           | Some job =>
               set_jobs st
                 (<[id := Job.mk (Job.recruiter job) (Job.status job)
                            (Job.applicationDeadline job)
                            (Z.of_nat (Application_countDocuments st
                                         (Query.mk (Some id) None None None)))]>
                    (jobs st))
           | None => st
           end)
    st ids.

(** Every job's counter is the number of application records that refer
    to the job. *)
Definition counter_consistent (st : State) : Prop :=
  ∀ id job, jobs st !! id = Some job →
    Job.applicationCount job
    = Z.of_nat (Application_countDocuments st (Query.mk (Some id) None None None)).

(** The shape of a stored timeline: it opens with the entry of the
    submission, whatever its date, and closes with an entry of the
    current status. *)
Definition timeline_shape (a : Application.t) : Prop :=
  (∃ d, head (Application.timeline a)
        = Some (TimelineEntry.mk "pending" d "Application submitted" None))
  ∧ ∃ e, last (Application.timeline a) = Some e
       ∧ TimelineEntry.status e = Application.status a.

(** The applications of a listing response; none when the route failed. *)
Definition items_of (r : Response Listing.t) : list (ObjectId * Application.t) :=
  match r.1 with
  | inr l => Listing.applications l
  | inl _ => []
  end.

(** ** A database with two applications

    S applies to K at time 500 (record 0) and to J at time 1000
    (record 1); R approves the second at time 2000. *)
Module Demo.
Definition db_a : State :=
  (submitApplication Scenario.db0 500 Scenario.S
     (mkApplyBody (JobId Scenario.K) None [])).2.

Definition db_b : State :=
  (submitApplication db_a 1000 Scenario.S (mkApplyBody (JobId Scenario.J) None [])).2.

Definition db_c : State :=
  (updateStatus db_b 2000 Scenario.R 1 "approved" None).2.
End Demo.

(** ** Queries on the collection *)

Lemma findOne_None st j s :
  Application_findOne st j s = None ↔
  ∀ i a, applications st !! i = Some a → ¬ applied j s a.
Proof.
  unfold Application_findOne. rewrite head_None. split.
  - intros Hnil i a Hia Happ.
    eapply (filter_nil_not_elem_of _ _ (i, a)) in Hnil; [|exact Happ].
    apply Hnil. by apply elem_of_map_to_list.
  - intros Hno. destruct (filter _ _) as [|[i a] l] eqn:Hf; [done|].
    assert (Hin : (i, a) ∈ filter (λ kv, applied j s kv.2)
                    (map_to_list (applications st))).
    { rewrite Hf. left. }
    apply list_elem_of_filter in Hin as [Happ Hin].
    apply elem_of_map_to_list in Hin. by destruct (Hno i a Hin).
Qed.


Lemma findById_Some st id d :
  Application_findById st id = Some d ↔
  ∃ a, applications st !! id = Some a ∧ d = mkDocument a false false.
Proof.
  unfold Application_findById.
  destruct (applications st !! id) as [a|]; simpl; split.
  - intros [= <-]. eauto.
  - intros (a' & [= <-] & ->). done.
  - done.
  - intros (a' & [=] & _).
Qed.

Lemma findById_None st id :
  Application_findById st id = None ↔ applications st !! id = None.
Proof.
  unfold Application_findById.
  destruct (applications st !! id); simpl; split; done.
Qed.

(** ** [save] after a status assignment *)

Lemma validate_set_timeline a tl :
  Application.validate (Application.set_timeline a tl) = Application.validate a.
Proof. reflexivity. Qed.

Lemma validate_saved_after a s e now :
  Application.validate (saved_after a s e now)
  = Application.validate (Application.set_status a s).
Proof. reflexivity. Qed.

Lemma save_status_change st now id a s e :
  Application_save st now id
    (timeline_push (assign_status (mkDocument a false false) s) e)
  = if Application.validate (Application.set_status a s)
    then Some (saved_after a s e now,
               set_applications st
                 (<[id := saved_after a s e now]> (applications st)))
    else None.
Proof.
  unfold saved_after, Application_save, assign_status, pre_save, hook_entries.
  destruct a as [j stu rec s0 cl rs an nt tl iv fb ca ua]; simpl.
  destruct (decide (s0 = s)) as [->|Hne]; simpl.
  - unfold Application.validate, Application.set_updatedAt,
      Application.set_timeline; simpl. by case_match.
  - unfold Application.validate, Application.set_updatedAt,
      Application.set_timeline, Application.set_status; simpl.
    case_match; [|done]. by rewrite <- app_assoc.
Qed.


(** ** What each status-changing route does when it answers *)

Lemma updateStatus_inl st now user id s note f st' :
  updateStatus st now user id s note = (inl f, st') → st' = st.
Proof.
  unfold updateStatus. intros H.
  repeat (case_match; simplify_eq/=; try done).
Qed.

Lemma updateStatus_inr st now user id s note a' st' :
  updateStatus st now user id s note = (inr a', st') ↔
  ∃ a, applications st !! id = Some a
     ∧ authorize [User.recruiter; User.admin] user = true
     ∧ s ∈ validStatuses
     ∧ (User.role user = User.recruiter →
        Application.recruiter a = User._id user)
     ∧ Application.validate (Application.set_status a s) = true
     ∧ a' = saved_after a s
              (TimelineEntry.mk s now
                 (or_else note ("Status changed to " +:+ s))
                 (Some (User._id user))) now
     ∧ st' = set_applications st (<[id := a']> (applications st)).
Proof.
  unfold updateStatus. split.
  - intros H.
    destruct (authorize _ user) eqn:Hauth; simpl in H; [|done].
    case_bool_decide as Hs; simpl in H; [|done].
    destruct (Application_findById st id) as [d|] eqn:Hd; [|done].
    apply findById_Some in Hd as (a & Ha & ->). simpl in H.
    exists a. rewrite save_status_change in H.
    destruct (bool_decide (User.role user = User.recruiter)
              && negb (bool_decide (Application.recruiter a = User._id user)))
      eqn:Hown; [done|].
    destruct (Application.validate _) eqn:Hv; [|done].
    simplify_eq. repeat split; try done.
    intros Hr. apply andb_false_iff in Hown as [Hown|Hown].
    + by apply bool_decide_eq_false in Hown.
    + apply negb_false_iff, bool_decide_eq_true in Hown. done.
  - intros (a & Ha & Hauth & Hs & Hown & Hv & -> & ->).
    rewrite Hauth. simpl. rewrite (bool_decide_eq_true_2 _ Hs). simpl.
    unfold Application_findById. rewrite Ha. simpl.
    fold (Application_findById st id).
    replace (bool_decide (User.role user = User.recruiter)
             && negb (bool_decide (Application.recruiter a = User._id user)))
      with false.
    2:{ symmetry. apply andb_false_iff.
        destruct (decide (User.role user = User.recruiter)) as [Hr|Hr].
        - right. apply negb_false_iff, bool_decide_eq_true. auto.
        - left. by apply bool_decide_eq_false. }
    rewrite save_status_change, Hv. done.
Qed.

Lemma scheduleInterview_inl Date_ st now user id body f st' :
  scheduleInterview Date_ st now user id body = (inl f, st') → st' = st.
Proof.
  unfold scheduleInterview. intros H.
  repeat (case_match; simplify_eq/=; try done).
Qed.

Lemma scheduleInterview_inr Date_ st now user id body a' st' :
  scheduleInterview Date_ st now user id body = (inr a', st') ↔
  ∃ a d, applications st !! id = Some a
     ∧ authorize [User.recruiter; User.admin] user = true
     ∧ (User.role user = User.recruiter →
        Application.recruiter a = User._id user)
     ∧ new_Date Date_ (date body) = Some d
     ∧ Application.validate
         (Application.set_status
            (Application.set_interview a
               (Interview.mk true d (time body) (location body)
                  (type body) (notes body))) "interview") = true
     ∧ a' = saved_after
              (Application.set_interview a
                 (Interview.mk true d (time body) (location body)
                    (type body) (notes body)))
              "interview"
              (TimelineEntry.mk "interview" now
                 ("Interview scheduled for " +:+ interpolate (date body)
                    +:+ " at " +:+ interpolate (time body))
                 (Some (User._id user))) now
     ∧ st' = set_applications st (<[id := a']> (applications st)).
Proof.
  unfold scheduleInterview. split.
  - intros H.
    destruct (authorize _ user) eqn:Hauth; simpl in H; [|done].
    destruct (Application_findById st id) as [d0|] eqn:Hd; [|done].
    apply findById_Some in Hd as (a & Ha & ->). simpl in H.
    destruct (bool_decide (User.role user = User.recruiter)
              && negb (bool_decide (Application.recruiter a = User._id user)))
      eqn:Hown; [done|].
    destruct (new_Date Date_ (date body)) as [d|] eqn:Hdate; [|done].
    exists a, d. unfold assign_interview in H. simpl in H.
    rewrite save_status_change in H.
    destruct (Application.validate _) eqn:Hv; [|done].
    simplify_eq. repeat split; try done.
    intros Hr. apply andb_false_iff in Hown as [Hown|Hown].
    + by apply bool_decide_eq_false in Hown.
    + apply negb_false_iff, bool_decide_eq_true in Hown. done.
  - intros (a & d & Ha & Hauth & Hown & Hdate & Hv & -> & ->).
    rewrite Hauth. simpl.
    unfold Application_findById. rewrite Ha. simpl.
    replace (bool_decide (User.role user = User.recruiter)
             && negb (bool_decide (Application.recruiter a = User._id user)))
      with false.
    2:{ symmetry. apply andb_false_iff.
        destruct (decide (User.role user = User.recruiter)) as [Hr|Hr].
        - right. apply negb_false_iff, bool_decide_eq_true. auto.
        - left. by apply bool_decide_eq_false. }
    rewrite Hdate. unfold assign_interview. simpl.
    rewrite save_status_change, Hv. done.
Qed.

Lemma withdraw_inl st now user id f st' :
  withdraw st now user id = (inl f, st') → st' = st.
Proof.
  unfold withdraw. intros H.
  repeat (case_match; simplify_eq/=; try done).
Qed.

Lemma withdraw_inr st now user id st' :
  withdraw st now user id = (inr (), st') ↔
  ∃ a, applications st !! id = Some a
     ∧ authorize [User.student] user = true
     ∧ Application.student a = User._id user
     ∧ (Application.status a ∉ ["approved"; "rejected"])
     ∧ Application.validate (Application.set_status a "withdrawn") = true
     ∧ st' = set_applications st
               (<[id := saved_after a "withdrawn"
                          (TimelineEntry.mk "withdrawn" now
                             "Application withdrawn by student" None) now]>
                  (applications st)).
Proof.
  unfold withdraw. split.
  - intros H.
    destruct (authorize _ user) eqn:Hauth; simpl in H; [|done].
    destruct (Application_findById st id) as [d0|] eqn:Hd; [|done].
    apply findById_Some in Hd as (a & Ha & ->). simpl in H.
    case_bool_decide as Hown; simpl in H; [|done].
    case_bool_decide as Hst; simpl in H; [done|].
    rewrite save_status_change in H.
    destruct (Application.validate _) eqn:Hv; [|done].
    exists a. simplify_eq. done.
  - intros (a & Ha & Hauth & Hown & Hst & Hv & ->).
    rewrite Hauth. simpl. unfold Application_findById. rewrite Ha. simpl.
    rewrite (bool_decide_eq_true_2 _ Hown). simpl.
    rewrite (bool_decide_eq_false_2 _ Hst).
    rewrite save_status_change, Hv. done.
Qed.

Lemma perform_inl st now user id op f st' :
  perform st now user id op = (inl f, st') → st' = st.
Proof.
  destruct op as [s note|D body|]; unfold perform, void; simpl.
  - destruct (updateStatus st now user id s note) as [[f'|a'] st1] eqn:H;
      simpl; intros [= <- <-]. by eapply updateStatus_inl.
  - destruct (scheduleInterview D st now user id body) as [[f'|a'] st1] eqn:H;
      simpl; intros [= <- <-]. by eapply scheduleInterview_inl.
  - apply withdraw_inl.
Qed.

Lemma perform_inr st now user id op st' :
  perform st now user id op = (inr (), st') →
  ∃ a a', applications st !! id = Some a
    ∧ st' = set_applications st (<[id := a']> (applications st))
    ∧ same_frame a a'
    ∧ Application.validate a' = true
    ∧ Application.status a' = op_status op
    ∧ (∃ e, TimelineEntry.status e = op_status op
          ∧ Application.timeline a'
            = Application.timeline a
              ++ e :: hook_entries (Application.status a) (op_status op) now)
    ∧ match op with
      | ScheduleInterview _ _ => True
      | _ => Application.interview a' = Application.interview a
      end.
Proof.
  destruct op as [s note|D body|]; unfold perform, void; simpl.
  - destruct (updateStatus st now user id s note) as [[f'|a'] st1] eqn:H;
      simpl; intros [= <-].
    apply updateStatus_inr in H as (a & Ha & _ & _ & _ & Hv & -> & ->).
    exists a. eexists. repeat split; try done. eexists. split; [|done]. done.
  - destruct (scheduleInterview D st now user id body) as [[f'|a'] st1] eqn:H;
      simpl; intros [= <-].
    apply scheduleInterview_inr in H as (a & d & Ha & _ & _ & _ & Hv & -> & ->).
    exists a. eexists. repeat split; try done. eexists. split; [|done]. done.
  - intros H. apply withdraw_inr in H as (a & Ha & _ & _ & _ & Hv & ->).
    exists a. eexists. repeat split; try done. eexists. split; [|done]. done.
Qed.

(** X3 -- a successful status change makes the stored timeline two
    entries longer when the status differs from the stored one, and one
    entry longer when it does not. *)
Lemma status_change_timeline_length st now user id op st' a a' :
  perform st now user id op = (inr (), st') →
  applications st !! id = Some a →
  applications st' !! id = Some a' →
  length (Application.timeline a')
  = (length (Application.timeline a)
     + if decide (Application.status a = op_status op) then 1 else 2)%nat.
Proof.
  intros H Ha Ha'.
  apply perform_inr in H
    as (a0 & a1 & Ha0 & -> & _ & _ & _ & (e & _ & Htl) & _).
  simpl in Ha'. rewrite lookup_insert_eq in Ha'.
  assert (a0 = a) as -> by congruence. assert (a1 = a') as -> by congruence.
  rewrite Htl, length_app. unfold hook_entries.
  by destruct (decide (Application.status a = op_status op)).
Qed.

(** ** Numbers *)

Lemma Number_round_safe m : (Z.abs m ≤ 2 ^ 53)%Z → Number_round m = m.
Proof. intros H. unfold Number_round. by rewrite decide_True. Qed.

(** ** What [POST /api/applications] does when it answers *)

(** Of the schema's validators, a submitted record can only fail the
    [maxlength] of the cover letter. *)
Lemma validate_submitted now user j body job :
  Application.validate (submitted now user j body job)
  = match coverLetter body with
    | Some c => bool_decide (length c ≤ 2000)%nat
    | None => true
    end.
Proof.
  unfold Application.validate, submitted; simpl.
  by rewrite !andb_true_r.
Qed.

(** What the middleware measures is never more than [.length]. *)
Lemma isLength_length str max :
  (length str ≤ max)%nat → isLength str max = true.
Proof. intros H. unfold isLength. apply bool_decide_eq_true_2. lia. Qed.

Lemma validate_validateApplication now user j body job :
  Application.validate (submitted now user j body job) = true →
  validateApplication body = true.
Proof.
  rewrite validate_submitted. unfold validateApplication.
  destruct (coverLetter body) as [c|]; [|done].
  intros H. apply bool_decide_eq_true_1 in H. by apply isLength_length.
Qed.

Lemma create_submitted st now user j body job :
  Application.validate (submitted now user j body job) = true →
  Application_findOne st j (User._id user) = None →
  Application_create st now j (User._id user) (Job.recruiter job)
    (coverLetter body) (answers body)
    [TimelineEntry.mk "pending" now "Application submitted" None]
  = Some (fresh (dom (applications st)), submitted now user j body job,
          set_applications st
            (<[fresh (dom (applications st)) := submitted now user j body job]>
               (applications st))).
Proof.
  intros Hv Hnone. unfold Application_create, Application_save.
  fold (submitted now user j body job). simpl.
  rewrite Hv. simpl. rewrite Hnone. simpl. done.
Qed.

Lemma create_invalid st now user j body job :
  Application.validate (submitted now user j body job) = false →
  Application_create st now j (User._id user) (Job.recruiter job)
    (coverLetter body) (answers body)
    [TimelineEntry.mk "pending" now "Application submitted" None]
  = None.
Proof.
  intros Hv. unfold Application_create, Application_save.
  fold (submitted now user j body job). simpl. by rewrite Hv.
Qed.

Lemma submitApplication_inl st now user body f st' :
  submitApplication st now user body = (inl f, st') → st' = st.
Proof.
  unfold submitApplication. intros H.
  repeat (case_match; simplify_eq/=; try done).
Qed.

Lemma submitApplication_inr st now user body id a st' :
  submitApplication st now user body = (inr (id, a), st') ↔
  ∃ j job, authorize [User.student] user = true
     ∧ validateApplication body = true
     ∧ jobId body = JobId j
     ∧ jobs st !! j = Some job
     ∧ Job.status job = "active"
     ∧ (∀ deadline, Job.applicationDeadline job = Some deadline →
                    (now ≤ deadline)%Z)
     ∧ Application_findOne st j (User._id user) = None
     ∧ is_Some (users st !! Job.recruiter job)
     ∧ Application.validate (submitted now user j body job) = true
     ∧ id = fresh (dom (applications st))
     ∧ a = submitted now user j body job
     ∧ st' = mkState (users st)
               (<[j := Job.incrementApplicationCount job]> (jobs st))
               (<[id := a]> (applications st)).
Proof.
  unfold submitApplication. split.
  - intros H.
    destruct (authorize _ user) eqn:Hauth; simpl in H; [|done].
    destruct (validateApplication body) eqn:Hval; simpl in H; [|done].
    destruct (jobId body) as [j| |] eqn:Hid; [|done..].
    destruct (jobs st !! j) as [job|] eqn:Hjob; [|done].
    case_bool_decide as Hact; simpl in H; [|done].
    destruct (match Job.applicationDeadline job with
              | Some deadline => bool_decide (deadline < now)%Z
              | None => false
              end) eqn:Hdl; [done|].
    destruct (Application_findOne _ _ _) eqn:Hone; [done|].
    destruct (users st !! Job.recruiter job) eqn:Hrec; [|done].
    destruct (Application.validate (submitted now user j body job)) eqn:Hsch.
    2:{ by rewrite (create_invalid _ _ _ _ _ _ Hsch) in H. }
    rewrite (create_submitted _ _ _ _ _ _ Hsch Hone) in H.
    exists j, job. simplify_eq. repeat split; try done.
    intros d Hd. rewrite Hd in Hdl. apply bool_decide_eq_false in Hdl. lia.
  - intros (j & job & Hauth & Hval & Hid & Hjob & Hact & Hdl & Hone & [r Hrec]
            & Hsch & -> & -> & ->).
    rewrite Hauth, Hval, Hid, Hjob. simpl.
    rewrite (bool_decide_eq_true_2 _ Hact). simpl.
    replace (match Job.applicationDeadline job with
             | Some deadline => bool_decide (deadline < now)%Z
             | None => false
             end) with false.
    2:{ destruct (Job.applicationDeadline job) as [d|] eqn:Hd; [|done].
        symmetry. apply bool_decide_eq_false. specialize (Hdl d eq_refl). lia. }
    rewrite Hone, Hrec, (create_submitted _ _ _ _ _ _ Hsch Hone). done.
Qed.

(** ** The invariant of reachable states *)

Lemma authorize_student user :
  authorize [User.student] user = true ↔ User.role user = User.student.
Proof.
  unfold authorize.
  destruct (User.role user); split; intros H; try done; by vm_compute in H.
Qed.

Lemma authorize_staff user :
  authorize [User.recruiter; User.admin] user = true ↔
  User.role user ≠ User.student.
Proof.
  unfold authorize.
  destruct (User.role user); split; intros H; try done; by vm_compute in H.
Qed.

Lemma fresh_application st :
  applications st !! fresh (dom (applications st)) = None.
Proof. apply not_elem_of_dom, is_fresh. Qed.

Lemma Inv_init us js : Inv (mkState us js ∅).
Proof. split; simpl; intros *; by rewrite ?lookup_empty. Qed.

Lemma Inv_submit st now user body r st' :
  Inv st → authenticated st user →
  submitApplication st now user body = (r, st') → Inv st'.
Proof.
  intros HI Hauth H. destruct r as [f|[id a]].
  { apply submitApplication_inl in H as ->. done. }
  apply submitApplication_inr in H
    as (j & job & Hrole & Hval & Hid & Hjob & _ & _ & Hone & Hrec & Hsch
        & -> & -> & ->).
  apply authorize_student in Hrole. rewrite findOne_None in Hone.
  pose proof (fresh_application st) as Hfresh.
  set (id := fresh (dom (applications st))) in *.
  destruct HI as [Hu Hv Hs Hr]. split; simpl.
  - intros i1 i2 a1 a2 H1 H2 Hj Hst.
    destruct (decide (i1 = id)) as [->|N1], (decide (i2 = id)) as [->|N2];
      [done|..].
    + rewrite lookup_insert_eq in H1. rewrite lookup_insert_ne in H2 by done.
      injection H1 as <-. destruct (Hone i2 a2 H2). by split.
    + rewrite lookup_insert_eq in H2. rewrite lookup_insert_ne in H1 by done.
      injection H2 as <-. destruct (Hone i1 a1 H1). by split.
    + rewrite lookup_insert_ne in H1, H2 by done. by eapply Hu.
  - intros i a H1. rewrite lookup_insert in H1. case_decide; simplify_eq.
    + done.
    + by eapply Hv.
  - intros i a H1. rewrite lookup_insert in H1. case_decide; simplify_eq.
    + simpl. unfold authenticated in Hauth. by rewrite Hauth, Hrole.
    + by eapply Hs.
  - intros i a H1. rewrite lookup_insert in H1. case_decide; simplify_eq.
    + done.
    + by eapply Hr.
Qed.

Lemma Inv_perform st now user id op r st' :
  Inv st → perform st now user id op = (r, st') → Inv st'.
Proof.
  intros HI H. destruct r as [f|[]].
  { apply perform_inl in H as ->. done. }
  apply perform_inr in H
    as (a & a' & Ha & -> & (Hj & Hstu & Hrec & _) & Hval & _).
  destruct HI as [Hu Hv Hs Hr]. split; simpl.
  - intros i1 i2 a1 a2 H1 H2 Hj' Hst'.
    destruct (decide (i1 = id)) as [->|N1], (decide (i2 = id)) as [->|N2];
      [done|..].
    + rewrite lookup_insert_eq in H1. rewrite lookup_insert_ne in H2 by done.
      injection H1 as <-. eapply Hu; eauto; congruence.
    + rewrite lookup_insert_eq in H2. rewrite lookup_insert_ne in H1 by done.
      injection H2 as <-. eapply Hu; eauto; congruence.
    + rewrite lookup_insert_ne in H1, H2 by done. by eapply Hu.
  - intros i b H1. rewrite lookup_insert in H1. case_decide; simplify_eq.
    + done.
    + by eapply Hv.
  - intros i b H1. rewrite lookup_insert in H1. case_decide; simplify_eq.
    + rewrite Hstu. by eapply Hs.
    + by eapply Hs.
  - intros i b H1. rewrite lookup_insert in H1. case_decide; simplify_eq.
    + rewrite Hrec. by eapply Hr.
    + by eapply Hr.
Qed.

Lemma Inv_step st st' : Inv st → step st st' → Inv st'.
Proof.
  intros HI Hstep. destruct Hstep as [st now user body r st' Hauth H
                                     |st now user id op r st' Hauth H
                                     |st st' Happs Husers].
  - by eapply Inv_submit.
  - by eapply Inv_perform.
  - destruct HI as [Hu Hv Hs Hr]. split; rewrite Happs.
    + done.
    + done.
    + intros i a H1. eapply lookup_weaken; [by eapply Hs|done].
    + intros i a H1. destruct (Hr i a H1) as [ro Hro].
      exists ro. by eapply lookup_weaken.
Qed.

Lemma reachable_Inv st : reachable st → Inv st.
Proof.
  induction 1 as [us js|st st' _ IH Hstep].
  - apply Inv_init.
  - by eapply Inv_step.
Qed.

(** ** The scenario database *)

Lemma db1_reachable : reachable Scenario.db1.
Proof.
  apply (reachable_step Scenario.db0); [apply reachable_init|].
  eapply (step_submit Scenario.db0 1000%Z Scenario.S
            (mkApplyBody (JobId Scenario.J) None []));
    [reflexivity|].
  apply surjective_pairing.
Qed.

Lemma db2_reachable : reachable Scenario.db2.
Proof.
  apply (reachable_step Scenario.db1); [apply db1_reachable|].
  eapply (step_status Scenario.db1 2000%Z Scenario.R 0%N
            (UpdateStatus "interview" (Some "Let's talk")));
    [reflexivity|].
  apply surjective_pairing.
Qed.

(** ** Status changes and the timeline *)

(** C1 -- a status change is meant to append exactly one timeline entry
    carrying the new status.  On the database of the scenario the three
    status-changing routes each append two: the entry pushed by the
    route and, because [status] is modified, the entry pushed by the
    pre-save hook.  Here the pending application of S goes to [interview]
    through [updateStatus] and through [scheduleInterview], and to
    [withdrawn] through [withdraw]; every time the stored timeline grows
    from one entry to three. *)
Theorem status_change_appends_two_entries :
  (Application.timeline <$> Scenario.application Scenario.db1
   = Some [TimelineEntry.mk "pending" 1000 "Application submitted" None])
  ∧ (Application.timeline <$> Scenario.application
       (updateStatus Scenario.db1 2000 Scenario.R 0 "interview" None).2
     = Some [TimelineEntry.mk "pending" 1000 "Application submitted" None;
             TimelineEntry.mk "interview" 2000 "Status changed to interview"
               (Some 2%N);
             TimelineEntry.mk "interview" 2000 "Status changed to interview"
               None])
  ∧ (Application.timeline <$> Scenario.application
       (scheduleInterview Scenario.Date_ Scenario.db1 2000 Scenario.R 0
          Scenario.interviewBody).2
     = Some [TimelineEntry.mk "pending" 1000 "Application submitted" None;
             TimelineEntry.mk "interview" 2000
               "Interview scheduled for 2024-01-25 at 2:00 PM" (Some 2%N);
             TimelineEntry.mk "interview" 2000 "Status changed to interview"
               None])
  ∧ (Application.timeline <$> Scenario.application
       (withdraw Scenario.db1 2000 Scenario.S 0).2
     = Some [TimelineEntry.mk "pending" 1000 "Application submitted" None;
             TimelineEntry.mk "withdrawn" 2000
               "Application withdrawn by student" None;
             TimelineEntry.mk "withdrawn" 2000 "Status changed to withdrawn"
               None]).
Proof. repeat split; vm_compute; reflexivity. Qed.

(** C3 -- after [updateStatus(app, "interview", "Let's talk")] by the
    owning recruiter the status is [interview], but the stored timeline
    has three entries, not two, and its last entry is the one of the
    pre-save hook: its note is the default text, not "Let's talk", and it
    names no actor.  The caller's note and identity sit in the entry
    before it. *)
Theorem updateStatus_scenario_last_entry :
  ∃ a, (updateStatus Scenario.db1 2000 Scenario.R 0 "interview"
          (Some "Let's talk")).1 = inr a
     ∧ Scenario.application Scenario.db2 = Some a
     ∧ Application.status a = "interview"
     ∧ length (Application.timeline a) = 3%nat
     ∧ last (Application.timeline a)
       = Some (TimelineEntry.mk "interview" 2000
                 "Status changed to interview" None)
     ∧ Application.timeline a !! 1%nat
       = Some (TimelineEntry.mk "interview" 2000 "Let's talk" (Some 2%N)).
Proof. eexists. repeat split; vm_compute; reflexivity. Qed.

(** ** Interview scheduling *)

(** C9 -- after every successful [scheduleInterview] the caller sent a
    date text that the date parser reads, and the stored record has the
    interview sub-record [scheduled = true] with the date read from that
    text and the time, location, type and notes of the request; its
    status is [interview] whatever it was before; and the timeline has
    grown by the entry whose note is "Interview scheduled for " followed
    by the date text as sent, " at " and the time as sent ("undefined"
    when no time was sent), dated now and signed by the caller, followed
    by the entry of the pre-save hook when the status changed. *)
Theorem scheduleInterview_effect Date_ st now user id body a' st' :
  scheduleInterview Date_ st now user id body = (inr a', st') →
  ∃ a text d,
    applications st !! id = Some a
    ∧ applications st' !! id = Some a'
    ∧ date body = Some text
    ∧ Date_ text = Some d
    ∧ Application.interview a'
      = Some (Interview.mk true d (time body) (location body)
                (type body) (notes body))
    ∧ Application.status a' = "interview"
    ∧ Application.timeline a'
      = Application.timeline a
        ++ TimelineEntry.mk "interview" now
             ("Interview scheduled for " +:+ text +:+ " at "
                +:+ match time body with Some t => t | None => "undefined" end)
             (Some (User._id user))
           :: hook_entries (Application.status a) "interview" now.
Proof.
  intros H.
  apply scheduleInterview_inr in H as (a & d & Ha & _ & _ & Hd & _ & -> & ->).
  destruct (date body) as [text|] eqn:Htext; [|done].
  exists a, text, d. repeat split; try done.
  simpl. apply lookup_insert_eq.
Qed.

Lemma scheduleInterview_effect_witness :
  ∃ a a' st',
    scheduleInterview Scenario.Date_ Scenario.db1 3000 Scenario.A 0
      (mkInterviewBody (Some "2024-01-25") (Some "2:00 PM") (Some "Video call")
         (Some "video") None) = (inr a', st')
    ∧ applications Scenario.db1 !! 0%N = Some a
    ∧ applications st' !! 0%N = Some a'
    ∧ Application.interview a'
      = Some (Interview.mk true 1706140800000 (Some "2:00 PM")
                (Some "Video call") (Some "video") None)
    ∧ Application.status a = "pending"
    ∧ Application.status a' = "interview"
    ∧ Application.timeline a'
      = Application.timeline a
        ++ [TimelineEntry.mk "interview" 3000
              "Interview scheduled for 2024-01-25 at 2:00 PM" (Some 3%N);
            TimelineEntry.mk "interview" 3000 "Status changed to interview"
              None].
Proof.
  eexists _, _, _.
  assert (H : scheduleInterview Scenario.Date_ Scenario.db1 3000 Scenario.A 0
                (mkInterviewBody (Some "2024-01-25") (Some "2:00 PM")
                   (Some "Video call") (Some "video") None) = (inr _, _))
    by (vm_compute; reflexivity).
  destruct (scheduleInterview_effect _ _ _ _ _ _ _ _ H)
    as (a & text & d & Ha & Ha' & Htext & Hd & Hiv & Hst & Htl).
  injection Htext as <-.
  assert (Hd' : d = 1706140800000%Z)
    by (vm_compute in Hd; congruence).
  assert (Ha0 : applications Scenario.db1 !! 0%N = Some _)
    by (vm_compute; reflexivity).
  rewrite Ha0 in Ha. injection Ha as <-.
  split; [exact H|]. split; [exact Ha0|]. split; [exact Ha'|].
  split; [by rewrite Hiv, Hd'|]. split; [reflexivity|]. split; [exact Hst|].
  rewrite Htl. reflexivity.
Defined.

(** ** What a status change leaves alone *)

(** C10 -- a successful [updateStatus], [scheduleInterview] or
    [withdraw] leaves [coverLetter], [resume], [answers], [notes],
    [feedback] and the [job], [student] and [recruiter] references of
    the record as they were; [updateStatus] and [withdraw] leave the
    interview sub-record as it was too.  No other application, no job and
    no account is touched. *)
Theorem status_change_frame st now user id op st' a :
  perform st now user id op = (inr (), st') →
  applications st !! id = Some a →
  (∃ a', applications st' !! id = Some a'
       ∧ same_frame a a'
       ∧ match op with
         | ScheduleInterview _ _ => True
         | UpdateStatus _ _ | Withdraw =>
             Application.interview a' = Application.interview a
         end)
  ∧ (∀ i, i ≠ id → applications st' !! i = applications st !! i)
  ∧ jobs st' = jobs st
  ∧ users st' = users st.
Proof.
  intros H Ha.
  apply perform_inr in H as (a0 & a' & Ha0 & -> & Hframe & _ & _ & _ & Hiv).
  assert (a0 = a) as -> by congruence. simpl. repeat split.
  - exists a'. rewrite lookup_insert_eq. by destruct op.
  - intros i Hi. by rewrite lookup_insert_ne.
Qed.

Lemma status_change_frame_witness :
  ∃ st' a,
    perform Scenario.db1 2000 Scenario.R 0
      (UpdateStatus "approved" None) = (inr (), st')
    ∧ applications Scenario.db1 !! 0%N = Some a
    ∧ (∃ a', applications st' !! 0%N = Some a'
           ∧ same_frame a a'
           ∧ Application.interview a' = Application.interview a)
    ∧ (∀ i, i ≠ 0%N → applications st' !! i = applications Scenario.db1 !! i)
    ∧ jobs st' = jobs Scenario.db1
    ∧ users st' = users Scenario.db1.
Proof.
  eexists _, _.
  assert (H : perform Scenario.db1 2000 Scenario.R 0
                (UpdateStatus "approved" None) = (inr (), _))
    by (vm_compute; reflexivity).
  assert (Ha : applications Scenario.db1 !! 0%N = Some _)
    by (vm_compute; reflexivity).
  split; [exact H|]. split; [exact Ha|].
  exact (status_change_frame _ _ _ _ _ _ _ H Ha).
Defined.

(** ** Submission *)







(** ** Withdrawal *)

Lemma validate_set_status a s :
  Application.validate a = true → s ∈ Application.statusEnum →
  Application.validate (Application.set_status a s) = true.
Proof.
  unfold Application.validate, Application.set_status; simpl.
  intros Hv Hs. rewrite (bool_decide_eq_true_2 _ Hs).
  apply andb_true_iff in Hv as [Hv H4]. apply andb_true_iff in Hv as [Hv H3].
  apply andb_true_iff in Hv as [_ H2]. by rewrite H2, H3, H4.
Qed.

(** C7 -- on an existing application: called by the owning student,
    [withdraw] fails with [InvalidState] when the status is ['approved']
    or ['rejected'] and otherwise succeeds and stores status
    ['withdrawn']; called by anyone else, an administrator included, it
    fails with a 403 and changes nothing; and it never answers
    [InvalidState] on a status other than ['approved'] or ['rejected']. *)
Theorem withdraw_rules st now user id a :
  reachable st →
  applications st !! id = Some a →
  (User.role user = User.student → User._id user = Application.student a →
     (Application.status a ∈ ["approved"; "rejected"] →
      withdraw st now user id = (inl InvalidStateWithdraw, st))
     ∧ (Application.status a ∉ ["approved"; "rejected"] →
        ∃ a', withdraw st now user id
              = (inr (), set_applications st (<[id := a']> (applications st)))
            ∧ Application.status a' = "withdrawn"))
  ∧ (User._id user ≠ Application.student a ∨ User.role user ≠ User.student →
     ∃ f, withdraw st now user id = (inl f, st) ∧ http_status f = 403%Z)
  ∧ ((withdraw st now user id).1 = inl InvalidStateWithdraw →
     Application.status a ∈ ["approved"; "rejected"]).
Proof.
  intros Hreach Ha. apply reachable_Inv in Hreach as [_ Hv _ _].
  split; [|split].
  - intros Hrole Hown. apply authorize_student in Hrole. split.
    + intros Hst. unfold withdraw, Application_findById.
      rewrite Hrole, Ha. simpl.
      rewrite bool_decide_eq_true_2 by done. simpl.
      by rewrite (bool_decide_eq_true_2 _ Hst).
    + intros Hst. eexists. split.
      * apply withdraw_inr. exists a. repeat split; try done.
        apply validate_set_status; [by eapply Hv|].
        apply (bool_decide_unpack _). by vm_compute.
      * done.
  - intros Hother. unfold withdraw, Application_findById.
    destruct (authorize [User.student] user) eqn:Hrole; simpl.
    + rewrite Ha. simpl. apply authorize_student in Hrole.
      destruct Hother as [Hne|Hne]; [|done].
      rewrite bool_decide_eq_false_2 by done. simpl. by exists Forbidden.
    + by exists ForbiddenRole.
  - unfold withdraw, Application_findById. rewrite Ha. simpl. intros H.
    destruct (authorize [User.student] user); simpl in H; [|done].
    case_bool_decide; simpl in H; [|done].
    case_bool_decide as Hst; simpl in H; [done|].
    rewrite save_status_change in H.
    destruct (Application.validate _); simpl in H; discriminate H.
Qed.

Lemma withdraw_rules_witness :
  ∃ a,
    reachable Scenario.db2
    ∧ applications Scenario.db2 !! 0%N = Some a
    ∧ Application.status a = "interview"
    ∧ (∃ a', withdraw Scenario.db2 3000 Scenario.S 0
             = (inr (), set_applications Scenario.db2
                          (<[0%N := a']> (applications Scenario.db2)))
           ∧ Application.status a' = "withdrawn")
    ∧ (∃ f, withdraw Scenario.db2 3000 Scenario.A 0 = (inl f, Scenario.db2)
          ∧ http_status f = 403%Z).
Proof.
  eexists.
  assert (Ha : applications Scenario.db2 !! 0%N = Some _)
    by (vm_compute; reflexivity).
  split; [exact db2_reachable|]. split; [exact Ha|].
  split; [reflexivity|]. split.
  - destruct (withdraw_rules Scenario.db2 3000 Scenario.S 0 _
                db2_reachable Ha) as (Hown & _).
    destruct (Hown eq_refl eq_refl) as (_ & Hok).
    apply Hok. vm_compute. intros H.
    repeat (apply elem_of_cons in H as [H|H]; [discriminate H|]).
    by apply elem_of_nil in H.
  - destruct (withdraw_rules Scenario.db2 3000 Scenario.A 0 _
                db2_reachable Ha) as (_ & Hother & _).
    apply Hother. right. discriminate.
Defined.

(** ** The statuses that [updateStatus] accepts *)

Lemma validStatuses_statusEnum s :
  s ∈ validStatuses → s ∈ Application.statusEnum.
Proof.
  unfold validStatuses, Application.statusEnum.
  rewrite !elem_of_cons, !elem_of_nil. tauto.
Qed.

(** C4, as stated, fails: ['withdrawn'] is one of the six statuses of
    the schema, and [updateStatus] refuses it with [InvalidStatus], even
    from an administrator. *)
Lemma updateStatus_rejects_withdrawn :
  "withdrawn" ∈ Application.statusEnum
  ∧ Scenario.application Scenario.db1 ≠ None
  ∧ updateStatus Scenario.db1 2000 Scenario.A 0 "withdrawn" None
    = (inl InvalidStatus, Scenario.db1).
Proof.
  split; [|split].
  - apply (bool_decide_unpack _). by vm_compute.
  - by vm_compute.
  - by vm_compute.
Qed.

(** C4, amended -- for a recruiter or an administrator, [updateStatus]
    fails with [InvalidStatus] exactly when the new status is not one of
    the five of [validStatuses]: [pending], [under_review], [interview],
    [approved], [rejected].  Each of these five is accepted on every
    stored application, whatever its current status, from the owning
    recruiter or an administrator: the call succeeds and stores it. *)
Theorem updateStatus_valid_statuses st now user id s note :
  User.role user ≠ User.student →
  ((updateStatus st now user id s note).1 = inl InvalidStatus
   ↔ s ∉ validStatuses)
  ∧ (s ∈ validStatuses →
     reachable st →
     ∀ a, applications st !! id = Some a →
          (User.role user = User.recruiter →
           Application.recruiter a = User._id user) →
          ∃ a', updateStatus st now user id s note
                = (inr a', set_applications st
                             (<[id := a']> (applications st)))
              ∧ Application.status a' = s).
Proof.
  intros Hrole. apply authorize_staff in Hrole. split.
  - unfold updateStatus. rewrite Hrole. simpl. split.
    + intros H Hs. rewrite (bool_decide_eq_true_2 _ Hs) in H. simpl in H.
      destruct (Application_findById st id) as [d|] eqn:Hd; [|done].
      apply findById_Some in Hd as (a & _ & ->).
      destruct (_ && _); [done|].
      rewrite save_status_change in H.
      destruct (Application.validate _); simpl in H; discriminate H.
    + intros Hs. by rewrite (bool_decide_eq_false_2 _ Hs).
  - intros Hs Hreach a Ha Hown.
    apply reachable_Inv in Hreach as [_ Hv _ _].
    eexists. split; [|shelve].
    apply updateStatus_inr. exists a. repeat split; try done.
    apply validate_set_status; [by eapply Hv|].
    by apply validStatuses_statusEnum.
    Unshelve. done.
Qed.

Lemma updateStatus_valid_statuses_witness :
  User.role Scenario.A ≠ User.student
  ∧ ((updateStatus Scenario.db2 3000 Scenario.A 0 "pending" None).1
     ≠ inl InvalidStatus)
  ∧ ∃ a', (updateStatus Scenario.db2 3000 Scenario.A 0 "pending" None).1
          = inr a'
        ∧ Application.status a' = "pending".
Proof.
  assert (Hrole : User.role Scenario.A ≠ User.student) by discriminate.
  assert (Hs : "pending" ∈ validStatuses)
    by (apply (bool_decide_unpack _); by vm_compute).
  destruct (updateStatus_valid_statuses Scenario.db2 3000 Scenario.A 0
              "pending" None Hrole) as [Hiff Hok].
  split; [exact Hrole|]. split.
  - intros H. by apply Hiff in H.
  - assert (Ha : applications Scenario.db2 !! 0%N = Some _)
      by (vm_compute; reflexivity).
    destruct (Hok Hs db2_reachable _ Ha) as (a' & Heq & Hst);
      [discriminate|].
    exists a'. by rewrite Heq.
Defined.

(** ** Who may read and change an application *)

Lemma getApplication_reachable st user id a :
  reachable st → applications st !! id = Some a →
  getApplication st user id
  = if bool_decide (Application.student a = User._id user)
       || bool_decide (Application.recruiter a = User._id user)
       || bool_decide (User.role user = User.admin)
    then (inr a, st) else (inl Forbidden, st).
Proof.
  intros Hreach Ha. apply reachable_Inv in Hreach as [_ _ Hs Hr].
  unfold getApplication, Application_findById. rewrite Ha. simpl.
  rewrite (Hs id a Ha). destruct (Hr id a Ha) as [ro ->].
  by repeat case_bool_decide.
Qed.

(** C8, as stated, fails: a recruiter who does not own the application
    and sends a status that the route does not accept is answered
    [InvalidStatus], not [Forbidden]; the status is checked before the
    application is even looked up. *)
Lemma foreign_recruiter_invalid_status :
  User.role Scenario.R' = User.recruiter
  ∧ (Application.recruiter <$> Scenario.application Scenario.db1) = Some 2%N
  ∧ User._id Scenario.R' ≠ 2%N
  ∧ updateStatus Scenario.db1 2000 Scenario.R' 0 "hired" None
    = (inl InvalidStatus, Scenario.db1)
  ∧ updateStatus Scenario.db1 2000 Scenario.R' 0 "withdrawn" None
    = (inl InvalidStatus, Scenario.db1).
Proof. repeat split; by vm_compute. Qed.

(** C8, amended -- on an existing application, a caller who is neither
    its student, nor its recruiter, nor an administrator gets [Forbidden]
    from [getApplication].  A recruiter who does not own it gets
    [Forbidden] from [getApplication], from [scheduleInterview], and from
    [updateStatus] with one of the five accepted statuses; with any other
    status [updateStatus] answers [InvalidStatus].  In each case the
    database is unchanged. *)
Theorem foreign_caller_forbidden st id a :
  reachable st →
  applications st !! id = Some a →
  (∀ user,
     User._id user ≠ Application.student a →
     User._id user ≠ Application.recruiter a →
     User.role user ≠ User.admin →
     getApplication st user id = (inl Forbidden, st))
  ∧ (∀ user,
       authenticated st user →
       User.role user = User.recruiter →
       User._id user ≠ Application.recruiter a →
       getApplication st user id = (inl Forbidden, st)
       ∧ (∀ now s note, s ∈ validStatuses →
            updateStatus st now user id s note = (inl Forbidden, st))
       ∧ (∀ now s note, s ∉ validStatuses →
            updateStatus st now user id s note = (inl InvalidStatus, st))
       ∧ (∀ Date_ now body,
            scheduleInterview Date_ st now user id body = (inl Forbidden, st))).
Proof.
  intros Hreach Ha. split.
  - intros user Hs Hr Hadm. rewrite (getApplication_reachable _ _ _ a) by done.
    rewrite !bool_decide_eq_false_2 by done. done.
  - intros user Hauth Hrole Hr.
    assert (Hstaff : authorize [User.recruiter; User.admin] user = true).
    { apply authorize_staff. by rewrite Hrole. }
    assert (Hown : bool_decide (User.role user = User.recruiter)
                   && negb (bool_decide
                              (Application.recruiter a = User._id user))
                   = true).
    { rewrite (bool_decide_eq_true_2 _ Hrole).
      rewrite bool_decide_eq_false_2 by done. done. }
    repeat split.
    + rewrite (getApplication_reachable _ _ _ a) by done.
      assert (Hs : User._id user ≠ Application.student a).
      { intros Heq. pose proof Hreach as HI.
        apply reachable_Inv in HI as [_ _ Hstu _].
        unfold authenticated in Hauth.
        rewrite Heq, (Hstu id a Ha), Hrole in Hauth. discriminate. }
      rewrite !bool_decide_eq_false_2; [done|by rewrite Hrole|done|done].
    + intros now s note Hs. unfold updateStatus, Application_findById.
      rewrite Hstaff, Ha. simpl. rewrite (bool_decide_eq_true_2 _ Hs). simpl.
      by rewrite Hown.
    + intros now s note Hs. unfold updateStatus.
      rewrite Hstaff. simpl. by rewrite (bool_decide_eq_false_2 _ Hs).
    + intros D now body. unfold scheduleInterview, Application_findById.
      rewrite Hstaff, Ha. simpl. by rewrite Hown.
Qed.

Lemma foreign_caller_forbidden_witness :
  ∃ a,
    reachable Scenario.db1
    ∧ applications Scenario.db1 !! 0%N = Some a
    ∧ getApplication Scenario.db1 Scenario.R' 0 = (inl Forbidden, Scenario.db1)
    ∧ updateStatus Scenario.db1 2000 Scenario.R' 0 "approved" None
      = (inl Forbidden, Scenario.db1)
    ∧ scheduleInterview Scenario.Date_ Scenario.db1 2000 Scenario.R' 0
        Scenario.interviewBody = (inl Forbidden, Scenario.db1).
Proof.
  eexists.
  assert (Ha : applications Scenario.db1 !! 0%N = Some _)
    by (vm_compute; reflexivity).
  split; [exact db1_reachable|]. split; [exact Ha|].
  destruct (foreign_caller_forbidden Scenario.db1 0 _ db1_reachable Ha)
    as [_ Hrec].
  destruct (Hrec Scenario.R') as (Hget & Hupd & _ & Hint).
  - reflexivity.
  - reflexivity.
  - discriminate.
  - split; [exact Hget|]. split; [|apply Hint].
    apply Hupd. apply (bool_decide_unpack _). by vm_compute.
Defined.

(** ** One application per job and student *)

(** C2, as stated, fails: the deadline is checked before the existing
    application.  S applies to K at its deadline, time 1000, and is
    accepted; the second submission of S for K, one moment later, is
    refused with [Expired], not [Conflict]. *)
Lemma second_submit_after_deadline :
  ∃ id a st',
    submitApplication Scenario.db0 1000 Scenario.S
      (mkApplyBody (JobId Scenario.K) None []) = (inr (id, a), st')
    ∧ submitApplication st' 1001 Scenario.S
        (mkApplyBody (JobId Scenario.K) None []) = (inl Expired, st')
    ∧ (submitApplication st' 1001 Scenario.S
         (mkApplyBody (JobId Scenario.K) None [])).1 ≠ inl Conflict.
Proof.
  eexists _, _, _. split; [vm_compute; reflexivity|].
  split; [vm_compute; reflexivity|]. vm_compute. discriminate.
Qed.

Lemma submit_again st now user body id a st' now' :
  submitApplication st now user body = (inr (id, a), st') →
  ∃ j job, jobId body = JobId j
    ∧ jobs st !! j = Some job
    ∧ submitApplication st' now' user body
      = if match Job.applicationDeadline job with
           | Some deadline => bool_decide (deadline < now')%Z
           | None => false
           end
        then (inl Expired, st') else (inl Conflict, st').
Proof.
  intros H.
  apply submitApplication_inr in H
    as (j & job & Hrole & Hval & Hid & Hjob & Hact & _ & _ & _ & _
        & -> & -> & ->).
  exists j, job. split; [done|]. split; [done|].
  unfold submitApplication. rewrite Hrole, Hval, Hid. simpl.
  rewrite lookup_insert_eq. simpl.
  rewrite (bool_decide_eq_true_2 _ Hact). simpl.
  destruct (match Job.applicationDeadline job with
            | Some deadline => bool_decide (deadline < now')%Z
            | None => false
            end); [done|].
  destruct (Application_findOne _ _ _) eqn:Hone; [done|].
  rewrite findOne_None in Hone.
  destruct (Hone (fresh (dom (applications st)))
              (submitted now user j body job)).
  - simpl. apply lookup_insert_eq.
  - done.
Qed.

(** C2, amended -- in every reachable state at most one application
    exists for a (job, student) pair, and a [submitApplication] of a
    student for a job that already has an application of that student
    fails and creates no record.  A second call on the database that a
    successful first call left fails with [Conflict], unless the job's
    deadline has passed by the time of the second call, in which case it
    fails with [Expired]. *)
Theorem one_application_per_pair st :
  reachable st →
  (∀ i1 i2 a1 a2,
     applications st !! i1 = Some a1 →
     applications st !! i2 = Some a2 →
     Application.job a1 = Application.job a2 →
     Application.student a1 = Application.student a2 →
     i1 = i2)
  ∧ (∀ now user body j i a,
       jobId body = JobId j →
       applications st !! i = Some a →
       applied j (User._id user) a →
       ∃ f, submitApplication st now user body = (inl f, st))
  ∧ (∀ now user body id a st',
       submitApplication st now user body = (inr (id, a), st') →
       ∀ now', ∃ f,
         submitApplication st' now' user body = (inl f, st')
         ∧ (f = Conflict ∨ f = Expired)
         ∧ (f = Expired ↔
            ∃ j job deadline,
              jobId body = JobId j
              ∧ jobs st !! j = Some job
              ∧ Job.applicationDeadline job = Some deadline
              ∧ (deadline < now')%Z)).
Proof.
  intros Hreach. split; [|split].
  - by destruct (reachable_Inv _ Hreach).
  - intros now user body j i a Hid Ha Happ.
    destruct (submitApplication st now user body) as [[f|[id a']] st'] eqn:H.
    + apply submitApplication_inl in H as ->. by exists f.
    + apply submitApplication_inr in H
        as (j' & _ & _ & _ & Hid' & _ & _ & _ & Hone & _).
      assert (j' = j) as -> by congruence.
      rewrite findOne_None in Hone. by destruct (Hone i a Ha).
  - intros now user body id a st' H now'.
    destruct (submit_again _ _ _ _ _ _ _ now' H) as (j & job & Hid & Hjob & ->).
    destruct (Job.applicationDeadline job) as [d|] eqn:Hd.
    + case_bool_decide as Hlt.
      * exists Expired. repeat split; [by right|].
        intros _. by exists j, job, d.
      * exists Conflict. repeat split; [by left|done|].
        intros (j' & job' & d' & Hid' & Hjob' & Hd' & Hlt').
        rewrite Hid in Hid'. simplify_eq. lia.
    + exists Conflict. repeat split; [by left|done|].
      intros (j' & job' & d' & Hid' & Hjob' & Hd' & Hlt').
      rewrite Hid in Hid'. simplify_eq.
Qed.

Lemma one_application_per_pair_witness :
  reachable Scenario.db0
  ∧ ∃ id a,
      submitApplication Scenario.db0 1000 Scenario.S
        (mkApplyBody (JobId Scenario.J) None []) = (inr (id, a), Scenario.db1)
      ∧ submitApplication Scenario.db1 1001 Scenario.S
          (mkApplyBody (JobId Scenario.J) None []) = (inl Conflict, Scenario.db1).
Proof.
  assert (Hreach : reachable Scenario.db0) by apply reachable_init.
  split; [exact Hreach|]. eexists _, _.
  assert (H : submitApplication Scenario.db0 1000 Scenario.S
                (mkApplyBody (JobId Scenario.J) None [])
              = (inr (_, _), Scenario.db1))
    by (vm_compute; reflexivity).
  split; [exact H|].
  destruct (one_application_per_pair Scenario.db0 Hreach) as (_ & _ & Hagain).
  destruct (Hagain _ _ _ _ _ _ H 1001%Z) as (f & Heq & [->| ->] & Hexp).
  - exact Heq.
  - exfalso. destruct (proj1 Hexp eq_refl) as (j & job & d & Hid & Hjob & Hd & _).
    simpl in Hid. injection Hid as <-.
    vm_compute in Hjob. injection Hjob as <-. discriminate Hd.
Defined.

(** * Further properties of the routes *)

(** ** The timeline along a run *)

Lemma perform_inr_record st now user id op st' :
  perform st now user id op = (inr (), st') →
  ∃ a a0 e,
    applications st !! id = Some a
    ∧ (a0 = a ∨ ∃ i, a0 = Application.set_interview a i)
    ∧ TimelineEntry.status e = op_status op
    ∧ st' = set_applications st
              (<[id := saved_after a0 (op_status op) e now]> (applications st)).
Proof.
  destruct op as [s note|D body|]; unfold perform, void; simpl.
  - destruct (updateStatus st now user id s note) as [[f'|a'] st1] eqn:H;
      simpl; intros [= <-].
    apply updateStatus_inr in H as (a & Ha & _ & _ & _ & _ & -> & ->).
    exists a, a. eexists. repeat split; [done|by left|done].
  - destruct (scheduleInterview D st now user id body) as [[f'|a'] st1] eqn:H;
      simpl; intros [= <-].
    apply scheduleInterview_inr in H as (a & d & Ha & _ & _ & _ & _ & -> & ->).
    exists a. eexists. eexists. repeat split; [done|right; eauto|done].
  - intros H. apply withdraw_inr in H as (a & Ha & _ & _ & _ & _ & ->).
    exists a, a. eexists. repeat split; [done|by left|done].
Qed.

Lemma step_keeps_application st st' id a :
  step st st' →
  applications st !! id = Some a →
  ∃ a', applications st' !! id = Some a'
      ∧ Application.timeline a `prefix_of` Application.timeline a'
      ∧ Application.job a' = Application.job a
      ∧ Application.student a' = Application.student a
      ∧ Application.recruiter a' = Application.recruiter a
      ∧ Application.createdAt a' = Application.createdAt a.
Proof.
  intros Hstep Ha.
  destruct Hstep as [st now user body r st' _ H
                    |st now user id0 op r st' _ H
                    |st st' Happs _].
  - destruct r as [f|[i b]].
    + apply submitApplication_inl in H as ->. by exists a.
    + apply submitApplication_inr in H
        as (j & job & _ & _ & _ & _ & _ & _ & _ & _ & _ & -> & -> & ->). simpl.
      exists a. rewrite lookup_insert_ne; [done|].
      intros <-. by rewrite fresh_application in Ha.
  - destruct r as [f|[]].
    + apply perform_inl in H as ->. by exists a.
    + apply perform_inr_record in H as (b & b0 & e & Hb & Hb0 & _ & ->).
      simpl. destruct (decide (id0 = id)) as [->|Hne].
      * rewrite lookup_insert_eq. eexists. split; [done|].
        assert (b = a) as -> by congruence.
        destruct Hb0 as [->|[i ->]]; simpl;
          (split; [by apply prefix_app_r|done]).
      * rewrite lookup_insert_ne by done. by exists a.
  - rewrite Happs. by exists a.
Qed.

(** X1 -- whatever requests are served, a stored application stays
    stored under its id, keeps its job, student and recruiter references
    and its creation time, and its timeline only grows at the end: the
    timeline it had is a prefix of the timeline it has later. *)
Theorem timeline_append_only st st' id a :
  rtc step st st' →
  applications st !! id = Some a →
  ∃ a', applications st' !! id = Some a'
      ∧ Application.timeline a `prefix_of` Application.timeline a'
      ∧ Application.job a' = Application.job a
      ∧ Application.student a' = Application.student a
      ∧ Application.recruiter a' = Application.recruiter a
      ∧ Application.createdAt a' = Application.createdAt a.
Proof.
  intros Hrun. revert a. induction Hrun as [st|st st1 st2 Hstep _ IH]; intros a Ha.
  - by exists a.
  - destruct (step_keeps_application _ _ _ _ Hstep Ha)
      as (a1 & Ha1 & Hp1 & Hj1 & Hs1 & Hr1 & Hc1).
    destruct (IH a1 Ha1) as (a2 & Ha2 & Hp2 & Hj2 & Hs2 & Hr2 & Hc2).
    exists a2. repeat split; try congruence. by etrans.
Qed.

Lemma timeline_append_only_witness :
  ∃ a, rtc step Scenario.db1 Scenario.db2
     ∧ applications Scenario.db1 !! 0%N = Some a
     ∧ ∃ a', applications Scenario.db2 !! 0%N = Some a'
           ∧ Application.timeline a `prefix_of` Application.timeline a'
           ∧ Application.createdAt a' = Application.createdAt a.
Proof.
  eexists.
  assert (Hrun : rtc step Scenario.db1 Scenario.db2).
  { apply rtc_once.
    eapply (step_status Scenario.db1 2000%Z Scenario.R 0%N
              (UpdateStatus "interview" (Some "Let's talk")));
      [reflexivity|apply surjective_pairing]. }
  assert (Ha : applications Scenario.db1 !! 0%N = Some _)
    by (vm_compute; reflexivity).
  split; [exact Hrun|]. split; [exact Ha|].
  destruct (timeline_append_only _ _ _ _ Hrun Ha)
    as (a' & Ha' & Hp & _ & _ & _ & Hc).
  exists a'. repeat split; assumption.
Defined.

Lemma timeline_shape_saved_after a a0 s e now :
  timeline_shape a →
  a0 = a ∨ (∃ i, a0 = Application.set_interview a i) →
  TimelineEntry.status e = s →
  timeline_shape (saved_after a0 s e now).
Proof.
  intros [[d Hhead] _] Ha0 He. unfold timeline_shape, saved_after; simpl.
  assert (Htl : Application.timeline a0 = Application.timeline a)
    by (destruct Ha0 as [->|[i ->]]; done).
  rewrite Htl. split.
  - exists d. destruct (Application.timeline a); [done|]. exact Hhead.
  - unfold hook_entries. destruct (decide (Application.status a0 = s)).
    + exists e. by rewrite last_snoc.
    + eexists. rewrite (cons_middle e), (assoc_L (++)), last_snoc. done.
Qed.

(** X2 -- in every reachable state, every stored application has a
    timeline that opens with the entry of its submission ([pending],
    "Application submitted", no actor) and whose last entry carries the
    current status of the application. *)
Theorem reachable_timeline_shape st id a :
  reachable st →
  applications st !! id = Some a →
  timeline_shape a.
Proof.
  intros Hreach. revert id a.
  induction Hreach as [us js|st st' _ IH Hstep]; intros id a Ha.
  - simpl in Ha. by rewrite lookup_empty in Ha.
  - destruct Hstep as [st now user body r st' _ H
                      |st now user id0 op r st' _ H
                      |st st' Happs _].
    + destruct r as [f|[i b]].
      * apply submitApplication_inl in H as ->. by eapply IH.
      * apply submitApplication_inr in H
          as (j & job & _ & _ & _ & _ & _ & _ & _ & _ & _ & -> & -> & ->).
        simpl in Ha. rewrite lookup_insert in Ha. case_decide.
        -- injection Ha as <-. split; [by eexists|]. by eexists.
        -- by eapply IH.
    + destruct r as [f|[]].
      * apply perform_inl in H as ->. by eapply IH.
      * apply perform_inr_record in H as (b & b0 & e & Hb & Hb0 & He & ->).
        simpl in Ha. rewrite lookup_insert in Ha. case_decide.
        -- injection Ha as <-.
           eapply timeline_shape_saved_after; [by eapply IH|done|done].
        -- by eapply IH.
    + rewrite Happs in Ha. by eapply IH.
Qed.

Lemma reachable_timeline_shape_witness :
  ∃ a, reachable Scenario.db2
     ∧ applications Scenario.db2 !! 0%N = Some a
     ∧ timeline_shape a.
Proof.
  eexists.
  assert (Ha : applications Scenario.db2 !! 0%N = Some _)
    by (vm_compute; reflexivity).
  split; [exact db2_reachable|]. split; [exact Ha|].
  exact (reachable_timeline_shape _ _ _ db2_reachable Ha).
Defined.

Lemma status_change_timeline_length_witness :
  ∃ a a',
    perform Scenario.db2 3000 Scenario.A 0 (UpdateStatus "interview" None)
    = (inr (), (updateStatus Scenario.db2 3000 Scenario.A 0 "interview" None).2)
    ∧ applications Scenario.db2 !! 0%N = Some a
    ∧ applications
        (updateStatus Scenario.db2 3000 Scenario.A 0 "interview" None).2
      !! 0%N = Some a'
    ∧ length (Application.timeline a') = (length (Application.timeline a) + 1)%nat.
Proof.
  eexists _, _.
  assert (H : perform Scenario.db2 3000 Scenario.A 0
                (UpdateStatus "interview" None)
              = (inr (),
                 (updateStatus Scenario.db2 3000 Scenario.A 0 "interview" None).2))
    by (vm_compute; reflexivity).
  assert (Ha : applications Scenario.db2 !! 0%N = Some _)
    by (vm_compute; reflexivity).
  assert (Ha' : applications
                  (updateStatus Scenario.db2 3000 Scenario.A 0 "interview" None).2
                !! 0%N = Some _)
    by (vm_compute; reflexivity).
  split; [exact H|]. split; [exact Ha|]. split; [exact Ha'|].
  exact (status_change_timeline_length _ _ _ _ _ _ _ _ H Ha Ha').
Defined.

(** ** Missing records and malformed input *)

(** X4 -- an id that names no application is answered
    "Application not found" (404) by every route that takes one, once
    the caller has the role the route lets in and, for [updateStatus],
    the status is an accepted one; the database is unchanged. *)
Theorem unknown_application st id :
  applications st !! id = None →
  (∀ user, getApplication st user id = (inl NotFoundApplication, st))
  ∧ (∀ now user, User.role user = User.student →
       withdraw st now user id = (inl NotFoundApplication, st))
  ∧ (∀ Date_ now user body, User.role user ≠ User.student →
       scheduleInterview Date_ st now user id body
       = (inl NotFoundApplication, st))
  ∧ (∀ now user s note, User.role user ≠ User.student →
       s ∈ validStatuses →
       updateStatus st now user id s note = (inl NotFoundApplication, st)).
Proof.
  intros Hnone. apply findById_None in Hnone. repeat split.
  - intros user. unfold getApplication. by rewrite Hnone.
  - intros now user Hrole%authorize_student. unfold withdraw.
    by rewrite Hrole, Hnone.
  - intros D now user body Hrole%authorize_staff. unfold scheduleInterview.
    by rewrite Hrole, Hnone.
  - intros now user s note Hrole%authorize_staff Hs. unfold updateStatus.
    rewrite Hrole, Hnone. simpl. by rewrite (bool_decide_eq_true_2 _ Hs).
Qed.

Lemma unknown_application_witness :
  applications Scenario.db1 !! 7%N = None
  ∧ getApplication Scenario.db1 Scenario.S 7
    = (inl NotFoundApplication, Scenario.db1)
  ∧ withdraw Scenario.db1 2000 Scenario.S 7
    = (inl NotFoundApplication, Scenario.db1)
  ∧ updateStatus Scenario.db1 2000 Scenario.R 7 "approved" None
    = (inl NotFoundApplication, Scenario.db1).
Proof.
  assert (Hnone : applications Scenario.db1 !! 7%N = None) by reflexivity.
  destruct (unknown_application Scenario.db1 7 Hnone) as (Hg & Hw & _ & Hu).
  split; [exact Hnone|]. split; [apply Hg|]. split.
  - apply Hw. reflexivity.
  - apply Hu; [discriminate|]. apply (bool_decide_unpack _). by vm_compute.
Defined.

(** X5 -- [scheduleInterview] by a caller who may schedule, with a date
    that [new Date] cannot read or an interview type outside [phone],
    [video], [in-person], is answered "Server error" (500), not a
    validation error, and nothing is stored: the status, the timeline and
    the interview sub-record stay as they were. *)
Theorem scheduleInterview_bad_input Date_ st now user id body a :
  applications st !! id = Some a →
  User.role user ≠ User.student →
  (User.role user = User.recruiter → Application.recruiter a = User._id user) →
  (new_Date Date_ (date body) = None
   ∨ ∃ ty, type body = Some ty ∧ ty ∉ Interview.typeEnum) →
  scheduleInterview Date_ st now user id body = (inl ServerError, st).
Proof.
  intros Ha Hrole%authorize_staff Hown Hbad.
  unfold scheduleInterview, Application_findById. rewrite Hrole, Ha. simpl.
  replace (bool_decide (User.role user = User.recruiter)
           && negb (bool_decide (Application.recruiter a = User._id user)))
    with false.
  2:{ symmetry. apply andb_false_iff.
      destruct (decide (User.role user = User.recruiter)) as [Hr|Hr].
      - right. apply negb_false_iff, bool_decide_eq_true. auto.
      - left. by apply bool_decide_eq_false. }
  destruct (new_Date Date_ (date body)) as [d|] eqn:Hd; [|done].
  destruct Hbad as [?|(ty & Hty & Hnot)]; [done|].
  unfold assign_interview. simpl. rewrite save_status_change.
  replace (Application.validate _) with false; [done|].
  unfold Application.validate; simpl. rewrite Hty.
  rewrite (bool_decide_eq_false_2 _ Hnot).
  by rewrite andb_false_r.
Qed.

Lemma scheduleInterview_bad_input_witness :
  ∃ a,
    applications Scenario.db1 !! 0%N = Some a
    ∧ scheduleInterview Scenario.Date_ Scenario.db1 2000 Scenario.R 0
        (mkInterviewBody (Some "tomorrow") (Some "2:00 PM") None None None)
      = (inl ServerError, Scenario.db1)
    ∧ scheduleInterview Scenario.Date_ Scenario.db1 2000 Scenario.R 0
        (mkInterviewBody (Some "2024-01-25") None None (Some "onsite") None)
      = (inl ServerError, Scenario.db1).
Proof.
  eexists.
  assert (Ha : applications Scenario.db1 !! 0%N = Some _)
    by (vm_compute; reflexivity).
  split; [exact Ha|]. split.
  - apply (scheduleInterview_bad_input _ _ _ _ _ _ _ Ha);
      [discriminate|reflexivity|]. left. reflexivity.
  - apply (scheduleInterview_bad_input _ _ _ _ _ _ _ Ha);
      [discriminate|reflexivity|]. right. exists "onsite". split; [done|].
    intros H. by apply (bool_decide_pack _) in H.
Defined.

(** X6 -- in every reachable state, the student of an application, its
    recruiter and any administrator read it through [getApplication] and
    receive exactly the stored record; reading changes nothing. *)
Theorem getApplication_parties st user id a :
  reachable st →
  applications st !! id = Some a →
  User._id user = Application.student a
  ∨ User._id user = Application.recruiter a
  ∨ User.role user = User.admin →
  getApplication st user id = (inr a, st).
Proof.
  intros Hreach Ha Hparty. rewrite (getApplication_reachable _ _ _ a) by done.
  destruct Hparty as [H|[H|H]].
  - by rewrite (bool_decide_eq_true_2 _ (eq_sym H)).
  - rewrite (bool_decide_eq_true_2 (_ = _) (eq_sym H)). by rewrite orb_true_r.
  - rewrite (bool_decide_eq_true_2 _ H). by rewrite orb_true_r.
Qed.

Lemma getApplication_parties_witness :
  ∃ a,
    reachable Scenario.db1
    ∧ applications Scenario.db1 !! 0%N = Some a
    ∧ getApplication Scenario.db1 Scenario.S 0 = (inr a, Scenario.db1)
    ∧ getApplication Scenario.db1 Scenario.R 0 = (inr a, Scenario.db1)
    ∧ getApplication Scenario.db1 Scenario.A 0 = (inr a, Scenario.db1).
Proof.
  eexists.
  assert (Ha : applications Scenario.db1 !! 0%N = Some _)
    by (vm_compute; reflexivity).
  split; [exact db1_reachable|]. split; [exact Ha|].
  split; [|split].
  - apply (getApplication_parties _ Scenario.S _ _ db1_reachable Ha).
    left. reflexivity.
  - apply (getApplication_parties _ Scenario.R _ _ db1_reachable Ha).
    right. left. reflexivity.
  - apply (getApplication_parties _ Scenario.A _ _ db1_reachable Ha).
    right. right. reflexivity.
Defined.

(** ** Counting documents *)

Lemma find_ext st st' q :
  applications st' = applications st →
  Application_find st' q = Application_find st q.
Proof. unfold Application_find. by intros ->. Qed.

Lemma count_ext st st' q :
  applications st' = applications st →
  Application_countDocuments st' q = Application_countDocuments st q.
Proof. unfold Application_countDocuments. by intros ->%(find_ext _ _ q). Qed.

Lemma elem_of_find st q i a :
  (i, a) ∈ Application_find st q ↔ applications st !! i = Some a ∧ matches q a.
Proof.
  unfold Application_find. rewrite list_elem_of_filter, elem_of_map_to_list.
  simpl. tauto.
Qed.

Lemma NoDup_find st q : NoDup (Application_find st q).*1.
Proof.
  unfold Application_find.
  eapply (sublist_NoDup _ (map_to_list (applications st)).*1).
  - apply NoDup_fst_map_to_list.
  - apply fmap_sublist, sublist_filter.
Qed.




(** ** The application counter of a job *)





Lemma db0_counter_consistent : counter_consistent Scenario.db0.
Proof.
  intros id job Hjob.
  replace (Application_countDocuments Scenario.db0 _) with 0%nat
    by (unfold Application_countDocuments, Application_find; simpl;
        by rewrite map_to_list_empty).
  unfold Scenario.db0 in Hjob. simpl in Hjob.
  apply lookup_insert_Some in Hjob as [[_ <-]|[_ Hjob]]; [done|].
  apply lookup_singleton_Some in Hjob as [_ <-]. done.
Qed.


Lemma updateApplicationCounts_spec ids : ∀ st,
  applications (updateApplicationCounts st ids) = applications st
  ∧ users (updateApplicationCounts st ids) = users st
  ∧ ∀ id,
      jobs (updateApplicationCounts st ids) !! id
      = (λ job,
           if decide (id ∈ ids) then
             Job.mk (Job.recruiter job) (Job.status job)
               (Job.applicationDeadline job)
               (Z.of_nat (Application_countDocuments st
                            (Query.mk (Some id) None None None)))
           else job) <$> jobs st !! id.
Proof.
  induction ids as [|id0 ids IH]; intros st.
  - simpl. repeat split. intros id.
    by destruct (jobs st !! id).
  - simpl.
    set (st1 := match jobs st !! id0 with
                | Some job => set_jobs st _
                | None => st
                end).
    assert (Happs : applications st1 = applications st)
      by (unfold st1; by destruct (jobs st !! id0)).
    assert (Husers : users st1 = users st)
      by (unfold st1; by destruct (jobs st !! id0)).
    destruct (IH st1) as (IHa & IHu & IHj).
    split; [congruence|]. split; [congruence|].
    intros id. rewrite IHj.
    rewrite (count_ext st1 st) by done.
    destruct (decide (id = id0)) as [->|Hne].
    + unfold st1. destruct (jobs st !! id0) as [job|] eqn:Hjob; simpl.
      * rewrite lookup_insert_eq. simpl.
        rewrite (decide_True (P := id0 ∈ id0 :: ids)) by left.
        by case_decide.
      * by rewrite Hjob.
    + assert (Hj1 : jobs st1 !! id = jobs st !! id).
      { unfold st1. destruct (jobs st !! id0); [|done]. simpl.
        by rewrite lookup_insert_ne. }
      rewrite Hj1. destruct (jobs st !! id) as [job|]; [|done]. simpl.
      destruct (decide (id ∈ ids)) as [Hin|Hnin].
      * by rewrite decide_True by (by right).
      * rewrite decide_False; [done|].
        intros [?|?]%elem_of_cons; done.
Qed.

(** X8 -- the recount of the seed script writes into every listed job
    the number of application records that refer to it, whatever the
    counter held, and touches no other path of the job, no other job, no
    application and no account; when every job is listed, all counters
    are exact afterwards. *)
Theorem updateApplicationCounts_recount st ids :
  applications (updateApplicationCounts st ids) = applications st
  ∧ users (updateApplicationCounts st ids) = users st
  ∧ (∀ id job, jobs st !! id = Some job →
       ∃ job', jobs (updateApplicationCounts st ids) !! id = Some job'
         ∧ Job.recruiter job' = Job.recruiter job
         ∧ Job.status job' = Job.status job
         ∧ Job.applicationDeadline job' = Job.applicationDeadline job
         ∧ Job.applicationCount job'
           = if decide (id ∈ ids)
             then Z.of_nat (Application_countDocuments st
                              (Query.mk (Some id) None None None))
             else Job.applicationCount job)
  ∧ (∀ id, jobs st !! id = None →
           jobs (updateApplicationCounts st ids) !! id = None)
  ∧ ((∀ id, is_Some (jobs st !! id) → id ∈ ids) →
     counter_consistent (updateApplicationCounts st ids)).
Proof.
  destruct (updateApplicationCounts_spec ids st) as (Ha & Hu & Hj).
  split; [done|]. split; [done|]. split; [|split].
  - intros id job Hjob. rewrite Hj, Hjob. simpl. eexists. split; [done|].
    by destruct (decide (id ∈ ids)).
  - intros id Hnone. by rewrite Hj, Hnone.
  - intros Hall id job' Hjob'. rewrite Hj in Hjob'.
    destruct (jobs st !! id) as [job|] eqn:Hjob; [|done].
    simpl in Hjob'. rewrite decide_True in Hjob' by (apply Hall; eauto).
    injection Hjob' as <-. simpl.
    by rewrite (count_ext st (updateApplicationCounts st ids)).
Qed.

(** ** Deleting and moderating jobs *)

(** X9 -- [deleteJob] on an existing job succeeds for the recruiter of
    the job and for an administrator, and is refused with "Access denied"
    (403), changing nothing, for anyone else.  A successful deletion
    removes that job only: the applications that refer to it stay stored,
    and so does every account. *)
Theorem deleteJob_rules st user id job :
  jobs st !! id = Some job →
  (Job.recruiter job = User._id user ∨ User.role user = User.admin →
   ∃ st', deleteJob st user id = (inr (), st')
        ∧ jobs st' = delete id (jobs st)
        ∧ applications st' = applications st
        ∧ users st' = users st)
  ∧ (Job.recruiter job ≠ User._id user → User.role user ≠ User.admin →
     deleteJob st user id = (inl Forbidden, st)).
Proof.
  intros Hjob. unfold deleteJob. rewrite Hjob. split.
  - intros Hmay.
    replace (negb (bool_decide (Job.recruiter job = User._id user))
             && negb (bool_decide (User.role user = User.admin)))
      with false.
    + by eexists.
    + symmetry. apply andb_false_iff.
      destruct Hmay as [H|H]; [left|right];
        by rewrite (bool_decide_eq_true_2 _ H).
  - intros Hr Ha. by rewrite !bool_decide_eq_false_2 by done.
Qed.

Lemma deleteJob_rules_witness :
  jobs Scenario.db1 !! Scenario.J = Some (Job.mk 2 "active" None 1)
  ∧ (∃ st', deleteJob Scenario.db1 Scenario.R Scenario.J = (inr (), st')
          ∧ jobs st' = delete Scenario.J (jobs Scenario.db1)
          ∧ applications st' = applications Scenario.db1
          ∧ users st' = users Scenario.db1)
  ∧ deleteJob Scenario.db1 Scenario.R' Scenario.J
    = (inl Forbidden, Scenario.db1).
Proof.
  assert (Hjob : jobs Scenario.db1 !! Scenario.J
                 = Some (Job.mk 2 "active" None 1)) by reflexivity.
  split; [exact Hjob|]. split.
  - destruct (deleteJob_rules Scenario.db1 Scenario.R _ _ Hjob) as [Hok _].
    apply Hok. left. reflexivity.
  - destruct (deleteJob_rules Scenario.db1 Scenario.R' _ _ Hjob) as [_ Hno].
    apply Hno; discriminate.
Defined.

(** X10 -- after a job is deleted, a student's well-formed submission
    for it is answered "Job not found"; in a reachable state the
    applications made for it before are still there, and their students
    still read them through [getApplication]. *)
Theorem deleteJob_orphans st user id st' :
  reachable st →
  deleteJob st user id = (inr (), st') →
  (∀ now student body,
     User.role student = User.student →
     validateApplication body = true →
     jobId body = JobId id →
     submitApplication st' now student body = (inl NotFoundJob, st'))
  ∧ (∀ i a student,
       applications st !! i = Some a →
       Application.job a = id →
       User._id student = Application.student a →
       getApplication st' student i = (inr a, st')).
Proof.
  intros Hreach H. unfold deleteJob in H.
  destruct (jobs st !! id) as [job|] eqn:Hjob; [|done].
  destruct (_ && _); [done|]. injection H as <-. split.
  - intros now student body Hrole%authorize_student Hval Hid.
    unfold submitApplication. rewrite Hrole, Hval, Hid. simpl.
    by rewrite lookup_delete_eq.
  - intros i a student Ha _ Hstu.
    assert (Hreach' : reachable (set_jobs st (delete (id) (jobs st)))).
    { eapply reachable_step; [exact Hreach|]. by apply step_other. }
    apply getApplication_parties; [done|done|by left].
Qed.

Lemma deleteJob_orphans_witness :
  ∃ st' a,
    reachable Scenario.db1
    ∧ deleteJob Scenario.db1 Scenario.A Scenario.J = (inr (), st')
    ∧ applications Scenario.db1 !! 0%N = Some a
    ∧ Application.job a = Scenario.J
    ∧ submitApplication st' 3000 Scenario.S (mkApplyBody (JobId Scenario.J) None [])
      = (inl NotFoundJob, st')
    ∧ getApplication st' Scenario.S 0 = (inr a, st').
Proof.
  eexists _, _.
  assert (H : deleteJob Scenario.db1 Scenario.A Scenario.J = (inr (), _))
    by (vm_compute; reflexivity).
  assert (Ha : applications Scenario.db1 !! 0%N = Some _)
    by (vm_compute; reflexivity).
  destruct (deleteJob_orphans _ _ _ _ db1_reachable H) as [Hsub Hget].
  split; [exact db1_reachable|]. split; [exact H|]. split; [exact Ha|].
  split; [reflexivity|]. split.
  - apply Hsub; reflexivity.
  - apply (Hget _ _ Scenario.S Ha); reflexivity.
Defined.

Lemma updateApplicationCounts_recount_witness :
  (∀ id, is_Some (jobs Demo.db_c !! id) → id ∈ [Scenario.J; Scenario.K])
  ∧ counter_consistent (updateApplicationCounts Demo.db_c [Scenario.J; Scenario.K])
  ∧ (Job.applicationCount
       <$> jobs (updateApplicationCounts Demo.db_c [Scenario.J; Scenario.K])
           !! Scenario.K) = Some 1%Z.
Proof.
  assert (Hall : ∀ id, is_Some (jobs Demo.db_c !! id)
                       → id ∈ [Scenario.J; Scenario.K]).
  { intros id [job Hjob].
    destruct (decide (id = Scenario.J)) as [->|HJ]; [left|].
    destruct (decide (id = Scenario.K)) as [->|HK]; [right; left|].
    exfalso. revert Hjob. unfold Demo.db_c, Demo.db_b, Demo.db_a.
    vm_compute jobs. change (GMap _) with
      (<[Scenario.K := Job.mk 2 "active" (Some 1000%Z) 1]>
         (<[Scenario.J := Job.mk 2 "active" None 1]> (∅ : gmap N Job.t))).
    rewrite !lookup_insert_ne, lookup_empty by done. done. }
  split; [exact Hall|]. split; [|reflexivity].
  destruct (updateApplicationCounts_recount Demo.db_c [Scenario.J; Scenario.K])
    as (_ & _ & _ & _ & Hc).
  exact (Hc Hall).
Defined.

(** X11 -- [adminUpdateJobStatus], for an administrator: a status
    outside [pending], [approved], [rejected], [active], [closed] is
    answered "Invalid status" before the job is looked up; an accepted
    status on a missing job is answered "Job not found"; on an existing
    job it replaces the status and leaves the recruiter, the deadline and
    the counter as they were.  Once the stored status
    is not ['active'], every well-formed submission of a student for the
    job is answered "This job is no longer accepting applications". *)
Theorem adminUpdateJobStatus_rules st user id s :
  User.role user = User.admin →
  (s ∉ validStatuses_job →
   adminUpdateJobStatus st user id s = (inl InvalidStatus, st))
  ∧ (s ∈ validStatuses_job → jobs st !! id = None →
     adminUpdateJobStatus st user id s = (inl NotFoundJob, st))
  ∧ (s ∈ validStatuses_job →
     ∀ job, jobs st !! id = Some job →
       ∃ job' st',
         adminUpdateJobStatus st user id s = (inr job', st')
         ∧ jobs st' = <[id := job']> (jobs st)
         ∧ applications st' = applications st
         ∧ users st' = users st
         ∧ Job.status job' = s
         ∧ Job.recruiter job' = Job.recruiter job
         ∧ Job.applicationDeadline job' = Job.applicationDeadline job
         ∧ Job.applicationCount job' = Job.applicationCount job
         ∧ (s ≠ "active" →
            ∀ now student body,
              User.role student = User.student →
              validateApplication body = true →
              jobId body = JobId id →
              submitApplication st' now student body
              = (inl InvalidStateJob, st'))).
Proof.
  intros Hrole.
  assert (Hauth : authorize [User.admin] user = true)
    by (unfold authorize; by rewrite Hrole).
  unfold adminUpdateJobStatus. rewrite Hauth. simpl. split; [|split].
  - intros Hs. by rewrite (bool_decide_eq_false_2 _ Hs).
  - intros Hs Hnone. by rewrite (bool_decide_eq_true_2 _ Hs), Hnone.
  - intros Hs job Hjob. rewrite (bool_decide_eq_true_2 _ Hs), Hjob. simpl.
    eexists _, _. split; [done|]. simpl. repeat split.
    intros Hna now student body Hstu%authorize_student Hval Hid.
    unfold submitApplication. rewrite Hstu, Hval, Hid. simpl.
    rewrite lookup_insert_eq. simpl.
    by rewrite (bool_decide_eq_false_2 _ Hna).
Qed.

Lemma adminUpdateJobStatus_rules_witness :
  User.role Scenario.A = User.admin
  ∧ adminUpdateJobStatus Scenario.db1 Scenario.A Scenario.J "paused"
    = (inl InvalidStatus, Scenario.db1)
  ∧ ∃ job' st',
      adminUpdateJobStatus Scenario.db1 Scenario.A Scenario.J "closed"
      = (inr job', st')
      ∧ Job.status job' = "closed"
      ∧ submitApplication st' 3000 Scenario.S (mkApplyBody (JobId Scenario.J) None [])
        = (inl InvalidStateJob, st').
Proof.
  split; [reflexivity|]. split.
  - destruct (adminUpdateJobStatus_rules Scenario.db1 Scenario.A Scenario.J
                "paused" eq_refl) as (Hbad & _).
    apply Hbad. intros H. by apply (bool_decide_pack _) in H.
  - destruct (adminUpdateJobStatus_rules Scenario.db1 Scenario.A Scenario.J
                "closed" eq_refl) as (_ & _ & Hok).
    assert (Hs : "closed" ∈ validStatuses_job)
      by (apply (bool_decide_unpack _); by vm_compute).
    destruct (Hok Hs (Job.mk 2 "active" None 1) eq_refl)
      as (job' & st' & Heq & _ & _ & _ & Hst & _ & _ & _ & Hsub).
    exists job', st'. split; [exact Heq|]. split; [exact Hst|].
    apply Hsub; [discriminate|reflexivity|reflexivity|reflexivity].
Defined.

(** X12 -- deleting a job, or changing its status as an administrator,
    leaves every remaining job's [applicationCount] equal to the number
    of its application records whenever it was so before. *)
Theorem job_routes_keep_counter st :
  counter_consistent st →
  (∀ user id r st', deleteJob st user id = (r, st') → counter_consistent st')
  ∧ (∀ user id s r st',
       adminUpdateJobStatus st user id s = (r, st') → counter_consistent st').
Proof.
  intros Hc. split.
  - intros user id r st' H. unfold deleteJob in H.
    destruct (jobs st !! id) as [job|] eqn:Hjob; [|by simplify_eq].
    destruct (_ && _); [by simplify_eq|]. injection H as _ <-.
    intros j job' Hj. simpl in Hj.
    apply lookup_delete_Some in Hj as [_ Hj].
    rewrite (count_ext st (set_jobs st (delete id (jobs st)))) by done.
    by apply Hc.
  - intros user id s r st' H. unfold adminUpdateJobStatus in H.
    destruct (negb (authorize _ user)); [by simplify_eq|].
    destruct (negb (bool_decide _)); [by simplify_eq|].
    destruct (jobs st !! id) as [job|] eqn:Hjob; [|by simplify_eq].
    injection H as _ <-. intros j job' Hj. simpl in Hj.
    rewrite (count_ext st (set_jobs st _)) by done.
    rewrite lookup_insert in Hj. case_decide.
    + subst j. injection Hj as <-. simpl. by apply Hc.
    + by apply Hc.
Qed.

Lemma job_routes_keep_counter_witness :
  counter_consistent Scenario.db0
  ∧ counter_consistent (deleteJob Scenario.db0 Scenario.R Scenario.K).2
  ∧ jobs (deleteJob Scenario.db0 Scenario.R Scenario.K).2 !! Scenario.K = None.
Proof.
  split; [exact db0_counter_consistent|]. split; [|reflexivity].
  destruct (job_routes_keep_counter _ db0_counter_consistent) as [Hdel _].
  apply (Hdel Scenario.R Scenario.K
           (deleteJob Scenario.db0 Scenario.R Scenario.K).1).
  apply surjective_pairing.
Defined.

(** ** Listings *)

Lemma newest_first_trans x y z :
  newest_first x y → newest_first y z → newest_first x z.
Proof. unfold newest_first. lia. Qed.

Lemma newest_first_total x y : newest_first x y ∨ newest_first y x.
Proof. unfold newest_first. lia. Qed.

Lemma sorted_find_spec st q :
  NoDup (sort_createdAt_desc (Application_find st q)).*1
  ∧ (∀ i a, (i, a) ∈ sort_createdAt_desc (Application_find st q)
            ↔ applications st !! i = Some a ∧ matches q a)
  ∧ StronglySorted newest_first (sort_createdAt_desc (Application_find st q))
  ∧ length (sort_createdAt_desc (Application_find st q))
    = Application_countDocuments st q.
Proof.
  unfold sort_createdAt_desc.
  pose proof (merge_sort_Permutation newest_first (Application_find st q)) as Hp.
  split; [|split; [|split]].
  - rewrite Hp. apply NoDup_find.
  - intros i a. rewrite Hp. apply elem_of_find.
  - assert (Htrans : Transitive newest_first)
      by (intros x y z; apply newest_first_trans).
    assert (Htotal : Total newest_first)
      by (intros x y; apply newest_first_total).
    apply (StronglySorted_merge_sort newest_first).
  - unfold Application_countDocuments. by rewrite Hp.
Qed.

Lemma StronglySorted_lookup {A} (R : relation A) (l : list A) m n x y :
  StronglySorted R l → (m < n)%nat →
  l !! m = Some x → l !! n = Some y → R x y.
Proof.
  intros Hs. revert m n. induction Hs as [|z l Hs IH Hall]; intros m n Hmn Hx Hy.
  - done.
  - destruct n as [|n]; [lia|]. destruct m as [|m]; simpl in *.
    + injection Hx as <-. rewrite Forall_forall in Hall.
      apply Hall. by eapply list_elem_of_lookup_2.
    + apply (IH m n); [lia|done|done].
Qed.

Lemma window_sublist {A} (l : list A) (skip limit : nat) :
  take limit (drop skip l) `sublist_of` l.
Proof. etrans; [apply sublist_take|apply sublist_drop]. Qed.

Lemma window_sorted {A} (R : relation A) (l : list A) (skip limit : nat) :
  StronglySorted R l → StronglySorted R (take limit (drop skip l)).
Proof.
  intros Hs. rewrite <- (take_drop skip l) in Hs.
  apply StronglySorted_app_1_r in Hs.
  rewrite <- (take_drop limit (drop skip l)) in Hs.
  by apply StronglySorted_app_1_l in Hs.
Qed.

Lemma Math_ceil_div_bounds n d :
  (0 < d)%Z →
  (n ≤ Math_ceil_div n d * d)%Z ∧ ((Math_ceil_div n d - 1) * d < n)%Z.
Proof.
  intros Hd. unfold Math_ceil_div.
  pose proof (Z.div_mod (- n) d ltac:(lia)) as Hdm.
  pose proof (Z.mod_pos_bound (- n) d Hd) as Hmod.
  nia.
Qed.

Lemma validatePagination_bounds q :
  validatePagination q = true →
  (1 ≤ default 1 (ListQuery.page q))%Z
  ∧ (1 ≤ default 10 (ListQuery.limit q) ≤ 100)%Z.
Proof.
  unfold validatePagination. intros [Hp Hl]%andb_true_iff.
  destruct (ListQuery.page q), (ListQuery.limit q); simpl;
    repeat match goal with
           | H : bool_decide _ = true |- _ => apply bool_decide_eq_true in H
           end; lia.
Qed.

Lemma parseInt_limit q :
  validatePagination q = true →
  parseInt (default 10%Z (ListQuery.limit q)) = default 10%Z (ListQuery.limit q).
Proof.
  intros [_ Hl]%validatePagination_bounds. apply Number_round_safe. lia.
Qed.

Lemma myApplications_inr st user q l st' :
  myApplications st user q = (inr l, st') →
  User.role user = User.student
  ∧ validatePagination q = true
  ∧ st' = st
  ∧ l = Listing.mk
          (take (Z.to_nat (default 10%Z (ListQuery.limit q)))
             (drop (Z.to_nat ((default 1%Z (ListQuery.page q) - 1)
                              * default 10%Z (ListQuery.limit q)))
                (sort_createdAt_desc
                   (Application_find st
                      (Query.mk None (Some (User._id user)) None
                         (truthy (ListQuery.status q)))))))
          (Pagination.mk (parseInt (default 1%Z (ListQuery.page q)))
             (default 10%Z (ListQuery.limit q))
             (Z.of_nat (Application_countDocuments st
                          (Query.mk None (Some (User._id user)) None
                             (truthy (ListQuery.status q)))))
             (Math_ceil_div
                (Z.of_nat (Application_countDocuments st
                             (Query.mk None (Some (User._id user)) None
                                (truthy (ListQuery.status q)))))
                (default 10%Z (ListQuery.limit q)))).
Proof.
  unfold myApplications. intros H.
  destruct (authorize _ user) eqn:Hrole; simpl in H; [|done].
  destruct (validatePagination q) eqn:Hval; simpl in H; [|done].
  apply authorize_student in Hrole.
  rewrite (parseInt_limit q Hval) in H. by simplify_eq.
Qed.

Lemma receivedApplications_inr st user q l st' :
  receivedApplications st user q = (inr l, st') →
  User.role user = User.recruiter
  ∧ validatePagination q = true
  ∧ st' = st
  ∧ l = Listing.mk
          (take (Z.to_nat (default 10%Z (ListQuery.limit q)))
             (drop (Z.to_nat ((default 1%Z (ListQuery.page q) - 1)
                              * default 10%Z (ListQuery.limit q)))
                (sort_createdAt_desc
                   (Application_find st
                      (Query.mk (ListQuery.jobId q) None (Some (User._id user))
                         (truthy (ListQuery.status q)))))))
          (Pagination.mk (parseInt (default 1%Z (ListQuery.page q)))
             (default 10%Z (ListQuery.limit q))
             (Z.of_nat (Application_countDocuments st
                          (Query.mk (ListQuery.jobId q) None
                             (Some (User._id user))
                             (truthy (ListQuery.status q)))))
             (Math_ceil_div
                (Z.of_nat (Application_countDocuments st
                             (Query.mk (ListQuery.jobId q) None
                                (Some (User._id user))
                                (truthy (ListQuery.status q)))))
                (default 10%Z (ListQuery.limit q)))).
Proof.
  unfold receivedApplications. intros H.
  destruct (authorize _ user) eqn:Hrole; simpl in H; [|done].
  destruct (validatePagination q) eqn:Hval; simpl in H; [|done].
  rewrite (parseInt_limit q Hval) in H.
  split; [|by simplify_eq].
  unfold authorize in Hrole. apply bool_decide_eq_true in Hrole.
  by apply list_elem_of_singleton in Hrole.
Qed.

(** X13 -- a page of [myApplications] holds only stored applications of
    the caller (and, when a non-empty [status] is given, only of that
    status), no application twice, newest first; listing changes
    nothing. *)
Theorem myApplications_page st user q l st' :
  myApplications st user q = (inr l, st') →
  st' = st
  ∧ NoDup (Listing.applications l).*1
  ∧ (∀ i a, (i, a) ∈ Listing.applications l →
       applications st !! i = Some a
       ∧ Application.student a = User._id user
       ∧ ∀ s, truthy (ListQuery.status q) = Some s → Application.status a = s)
  ∧ (∀ m n x y, (m < n)%nat →
       Listing.applications l !! m = Some x →
       Listing.applications l !! n = Some y →
       (Application.createdAt y.2 ≤ Application.createdAt x.2)%Z).
Proof.
  intros H. apply myApplications_inr in H as (_ & _ & -> & ->). simpl.
  set (query := Query.mk None (Some (User._id user)) None
                  (truthy (ListQuery.status q))).
  destruct (sorted_find_spec st query) as (Hnd & Hin & Hs & _).
  split; [done|]. split; [|split].
  - eapply sublist_NoDup; [exact Hnd|]. apply fmap_sublist, window_sublist.
  - intros i a Hia.
    eapply elem_of_sublist in Hia; [|apply window_sublist].
    apply Hin in Hia as [Ha (_ & Hstu & _ & Hst)]. simpl in *.
    repeat split; [done|done|]. intros s Hsome. by rewrite Hsome in Hst.
  - intros m n x y Hmn Hx Hy.
    eapply (StronglySorted_lookup newest_first _ m n x y); [|done|done|done].
    by apply window_sorted.
Qed.

Lemma myApplications_page_witness :
  ∃ l,
    myApplications Demo.db_c Scenario.S (ListQuery.mk None None None None)
    = (inr l, Demo.db_c)
    ∧ (Listing.applications l).*1 = [1%N; 0%N]
    ∧ NoDup (Listing.applications l).*1
    ∧ ∀ i a, (i, a) ∈ Listing.applications l →
        Application.student a = User._id Scenario.S.
Proof.
  eexists.
  assert (H : myApplications Demo.db_c Scenario.S
                (ListQuery.mk None None None None) = (inr _, Demo.db_c))
    by (vm_compute; reflexivity).
  destruct (myApplications_page _ _ _ _ _ H) as (_ & Hnd & Hin & _).
  split; [exact H|]. split; [reflexivity|]. split; [exact Hnd|].
  intros i a Hia. by destruct (Hin i a Hia) as (_ & Hstu & _).
Defined.

(** X14 -- a page of [receivedApplications] holds only stored
    applications whose recruiter is the caller (of the given job and of
    the given non-empty status, when given), no application twice,
    newest first; listing changes nothing. *)
Theorem receivedApplications_page st user q l st' :
  receivedApplications st user q = (inr l, st') →
  st' = st
  ∧ NoDup (Listing.applications l).*1
  ∧ (∀ i a, (i, a) ∈ Listing.applications l →
       applications st !! i = Some a
       ∧ Application.recruiter a = User._id user
       ∧ (∀ j, ListQuery.jobId q = Some j → Application.job a = j)
       ∧ ∀ s, truthy (ListQuery.status q) = Some s → Application.status a = s)
  ∧ (∀ m n x y, (m < n)%nat →
       Listing.applications l !! m = Some x →
       Listing.applications l !! n = Some y →
       (Application.createdAt y.2 ≤ Application.createdAt x.2)%Z).
Proof.
  intros H. apply receivedApplications_inr in H as (_ & _ & -> & ->). simpl.
  set (query := Query.mk (ListQuery.jobId q) None (Some (User._id user))
                  (truthy (ListQuery.status q))).
  destruct (sorted_find_spec st query) as (Hnd & Hin & Hs & _).
  split; [done|]. split; [|split].
  - eapply sublist_NoDup; [exact Hnd|]. apply fmap_sublist, window_sublist.
  - intros i a Hia.
    eapply elem_of_sublist in Hia; [|apply window_sublist].
    apply Hin in Hia as [Ha (Hjob & _ & Hrec & Hst)]. simpl in *.
    repeat split; [done|done| |].
    + intros j Hsome. by rewrite Hsome in Hjob.
    + intros s Hsome. by rewrite Hsome in Hst.
  - intros m n x y Hmn Hx Hy.
    eapply (StronglySorted_lookup newest_first _ m n x y); [|done|done|done].
    by apply window_sorted.
Qed.

Lemma receivedApplications_page_witness :
  ∃ l,
    receivedApplications Demo.db_c Scenario.R
      (ListQuery.mk None None (Some "approved") (Some Scenario.J))
    = (inr l, Demo.db_c)
    ∧ (Listing.applications l).*1 = [1%N]
    ∧ ∀ i a, (i, a) ∈ Listing.applications l →
        Application.recruiter a = User._id Scenario.R
        ∧ Application.status a = "approved".
Proof.
  eexists.
  assert (H : receivedApplications Demo.db_c Scenario.R
                (ListQuery.mk None None (Some "approved") (Some Scenario.J))
              = (inr _, Demo.db_c))
    by (vm_compute; reflexivity).
  destruct (receivedApplications_page _ _ _ _ _ H) as (_ & _ & Hin & _).
  split; [exact H|]. split; [reflexivity|].
  intros i a Hia. destruct (Hin i a Hia) as (_ & Hrec & _ & Hst).
  split; [exact Hrec|]. by apply Hst.
Defined.

Lemma matches_student_status u s a :
  matches (Query.mk None (Some u) None s) a
  ↔ Application.student a = u ∧ ∀ s', s = Some s' → Application.status a = s'.
Proof.
  unfold matches; simpl. destruct s as [s|]; split.
  - intros (_ & H1 & _ & H2). split; [done|]. by intros s' [= <-].
  - intros [H1 H2]. repeat split; [done|]. by apply H2.
  - intros (_ & H1 & _). split; [done|]. by intros s' [=].
  - intros [H1 _]. done.
Qed.

Lemma myApplications_answers st user q :
  User.role user = User.student →
  validatePagination q = true →
  ∃ l, myApplications st user q = (inr l, st).
Proof.
  intros Hrole%authorize_student Hval. unfold myApplications.
  rewrite Hrole, Hval. simpl. by eexists.
Qed.

(** X15 -- the pagination block of [myApplications]: the page asked for
    is at least 1 and [limit] between 1 and 100 (1 and 10 when absent);
    [page] is the page asked for as [parseInt] reads it (the nearest
    double, for a page below 2^1023), which is the page asked for when
    that is at most 2^53; [total] is the number of
    the caller's applications that pass the status filter; the page holds
    [min limit (total - (p - 1) * limit)] of them, none when that is
    negative, [p] being the page asked for; and [pages] is the least
    number of pages that holds them all:
    [(pages - 1) * limit < total ≤ pages * limit]. *)
Theorem myApplications_pagination st user q l st' :
  myApplications st user q = (inr l, st') →
  (1 ≤ default 1%Z (ListQuery.page q))%Z
  ∧ ((default 1%Z (ListQuery.page q) < 2 ^ 1023)%Z →
     Pagination.page (Listing.pagination l)
     = Number_round (default 1%Z (ListQuery.page q)))
  ∧ ((default 1%Z (ListQuery.page q) ≤ 2 ^ 53)%Z →
     Pagination.page (Listing.pagination l) = default 1%Z (ListQuery.page q))
  ∧ (1 ≤ Pagination.limit (Listing.pagination l) ≤ 100)%Z
  ∧ Pagination.limit (Listing.pagination l) = default 10%Z (ListQuery.limit q)
  ∧ (∃ all,
       NoDup all.*1
       ∧ (∀ i a, (i, a) ∈ all ↔
            applications st !! i = Some a
            ∧ Application.student a = User._id user
            ∧ ∀ s, truthy (ListQuery.status q) = Some s →
                   Application.status a = s)
       ∧ Pagination.total (Listing.pagination l) = Z.of_nat (length all))
  ∧ Z.of_nat (length (Listing.applications l))
    = Z.min (Pagination.limit (Listing.pagination l))
        (Z.max 0 (Pagination.total (Listing.pagination l)
                  - (default 1%Z (ListQuery.page q) - 1)
                    * Pagination.limit (Listing.pagination l)))
  ∧ (Pagination.total (Listing.pagination l)
     ≤ Pagination.pages (Listing.pagination l)
       * Pagination.limit (Listing.pagination l))%Z
  ∧ ((Pagination.pages (Listing.pagination l) - 1)
     * Pagination.limit (Listing.pagination l)
     < Pagination.total (Listing.pagination l))%Z.
Proof.
  intros H. apply myApplications_inr in H as (_ & Hval & -> & ->). simpl.
  apply validatePagination_bounds in Hval as [Hp Hl].
  set (query := Query.mk None (Some (User._id user)) None
                  (truthy (ListQuery.status q))).
  destruct (sorted_find_spec st query) as (Hnd & Hin & _ & Hlen).
  destruct (Math_ceil_div_bounds
              (Z.of_nat (Application_countDocuments st query))
              (default 10%Z (ListQuery.limit q)) ltac:(lia)) as [Hup Hlo].
  repeat split; try lia.
  - intros Hsafe. apply Number_round_safe. lia.
  - exists (sort_createdAt_desc (Application_find st query)).
    split; [done|]. split; [|by rewrite Hlen].
    intros i a. rewrite Hin. unfold query. by rewrite matches_student_status.
  - rewrite length_take, length_drop, Hlen.
    assert (0 ≤ (default 1 (ListQuery.page q) - 1)
                * default 10 (ListQuery.limit q))%Z by nia.
    lia.
Qed.

Lemma myApplications_pagination_witness :
  (∃ l,
     myApplications Demo.db_c Scenario.S
       (ListQuery.mk (Some 2%Z) (Some 1%Z) None None) = (inr l, Demo.db_c)
     ∧ Pagination.page (Listing.pagination l) = 2%Z
     ∧ Pagination.total (Listing.pagination l) = 2%Z
     ∧ Pagination.pages (Listing.pagination l) = 2%Z
     ∧ Z.of_nat (length (Listing.applications l)) = 1%Z)
  ∧ (∃ l,
       myApplications Demo.db_c Scenario.S
         (ListQuery.mk (Some 9007199254740993%Z) None None None)
       = (inr l, Demo.db_c)
       ∧ Pagination.page (Listing.pagination l) = 9007199254740992%Z).
Proof.
  split.
  - eexists.
    assert (H : myApplications Demo.db_c Scenario.S
                  (ListQuery.mk (Some 2%Z) (Some 1%Z) None None)
                = (inr _, Demo.db_c))
      by (vm_compute; reflexivity).
    destruct (myApplications_pagination _ _ _ _ _ H)
      as (_ & _ & Hpage & _ & _ & _ & Hlen & _).
    split; [exact H|]. split; [apply Hpage; simpl; lia|].
    split; [reflexivity|]. split; [reflexivity|].
    rewrite Hlen. reflexivity.
  - destruct (myApplications_answers Demo.db_c Scenario.S
                (ListQuery.mk (Some 9007199254740993%Z) None None None)
                eq_refl eq_refl) as [l H].
    exists l. split; [exact H|].
    destruct (myApplications_pagination _ _ _ _ _ H) as (_ & Hpage & _).
    rewrite Hpage; [reflexivity|]. vm_compute. reflexivity.
Defined.

Lemma pages_concat {A} (l : list A) (L n : nat) :
  mjoin ((λ k, take L (drop ((k - 1) * L) l)) <$> seq 1 n) = take (n * L) l.
Proof.
  induction n as [|n IH]; [done|].
  rewrite seq_S, fmap_app, join_app, IH. simpl.
  rewrite app_nil_r, Nat.sub_0_r, take_take_drop. f_equal. lia.
Qed.

Lemma myApplications_items st user k limit status :
  User.role user = User.student →
  (1 ≤ k)%nat → (1 ≤ limit ≤ 100)%Z →
  items_of (myApplications st user
              (ListQuery.mk (Some (Z.of_nat k)) (Some limit) status None))
  = take (Z.to_nat limit)
      (drop ((k - 1) * Z.to_nat limit)
         (sort_createdAt_desc
            (Application_find st
               (Query.mk None (Some (User._id user)) None (truthy status))))).
Proof.
  intros Hrole%authorize_student Hk Hl.
  unfold items_of, myApplications, validatePagination. rewrite Hrole. simpl.
  rewrite !bool_decide_eq_true_2 by lia. simpl.
  do 2 f_equal. rewrite Z2Nat.inj_mul by lia. f_equal. lia.
Qed.

(** X16 -- reading [myApplications] page after page, from page 1 to the
    [pages] that page 1 reports, with one [limit] and one status filter
    on an unchanged database whose applications have pairwise distinct
    creation times, yields every application of the caller that passes
    the filter exactly once, strictly newest first; every later page is
    empty. *)
Theorem myApplications_pages_cover st user limit status first all :
  (∀ i j a b, applications st !! i = Some a → applications st !! j = Some b →
     Application.createdAt a = Application.createdAt b → i = j) →
  myApplications st user (ListQuery.mk (Some 1%Z) (Some limit) status None)
  = (inr first, st) →
  all = mjoin ((λ k, items_of
                       (myApplications st user
                          (ListQuery.mk (Some (Z.of_nat k)) (Some limit)
                             status None)))
                 <$> seq 1 (Z.to_nat (Pagination.pages (Listing.pagination first)))) →
  NoDup all.*1
  ∧ (∀ i a, (i, a) ∈ all ↔
       applications st !! i = Some a
       ∧ Application.student a = User._id user
       ∧ ∀ s, truthy status = Some s → Application.status a = s)
  ∧ (∀ m n x y, (m < n)%nat → all !! m = Some x → all !! n = Some y →
       (Application.createdAt y.2 < Application.createdAt x.2)%Z)
  ∧ (∀ k, (Z.to_nat (Pagination.pages (Listing.pagination first)) < k)%nat →
       items_of (myApplications st user
                   (ListQuery.mk (Some (Z.of_nat k)) (Some limit) status None))
       = []).
Proof.
  intros Hdistinct H Hall.
  pose proof H as H0.
  apply myApplications_inr in H0 as (Hrole & Hval & _ & Hfirst).
  apply validatePagination_bounds in Hval as [_ Hl]. simpl in Hl.
  set (query := Query.mk None (Some (User._id user)) None (truthy status)) in *.
  destruct (sorted_find_spec st query) as (Hnd & Hin & Hs & Hlen).
  set (sorted := sort_createdAt_desc (Application_find st query)) in *.
  destruct (Math_ceil_div_bounds
              (Z.of_nat (Application_countDocuments st query)) limit
              ltac:(lia)) as [Hup _].
  assert (Hpages : Pagination.pages (Listing.pagination first)
                   = Math_ceil_div
                       (Z.of_nat (Application_countDocuments st query)) limit)
    by (by rewrite Hfirst).
  set (n := Z.to_nat (Pagination.pages (Listing.pagination first))) in *.
  assert (Hcover : (length sorted ≤ n * Z.to_nat limit)%nat).
  { rewrite Hlen. unfold n. rewrite Hpages. nia. }
  assert (Heq : all = sorted).
  { rewrite Hall.
    rewrite (list_fmap_ext _
               (λ k, take (Z.to_nat limit) (drop ((k - 1) * Z.to_nat limit) sorted))
               (seq 1 n)).
    - rewrite pages_concat. by apply take_ge.
    - intros i k Hk. apply lookup_seq in Hk as [-> _].
      apply myApplications_items; [done|lia|done]. }
  rewrite Heq. split; [done|]. split; [|split].
  - intros i a. rewrite Hin. unfold query.
    by rewrite matches_student_status.
  - intros m k x y Hmk Hx Hy.
    pose proof (StronglySorted_lookup newest_first _ m k x y Hs Hmk Hx Hy) as Hle.
    unfold newest_first in Hle.
    destruct (decide (Application.createdAt y.2 = Application.createdAt x.2))
      as [Heqc|]; [|lia].
    exfalso.
    assert (Hxin : (x.1, x.2) ∈ sorted)
      by (rewrite <- surjective_pairing; by eapply list_elem_of_lookup_2).
    assert (Hyin : (y.1, y.2) ∈ sorted)
      by (rewrite <- surjective_pairing; by eapply list_elem_of_lookup_2).
    apply Hin in Hxin as [Hxs _]. apply Hin in Hyin as [Hys _].
    pose proof (Hdistinct _ _ _ _ Hys Hxs Heqc) as Hid.
    assert (m = k); [|lia].
    eapply (NoDup_lookup (sorted.*1) m k (x.1)); [done| |].
    + by rewrite list_lookup_fmap, Hx.
    + rewrite list_lookup_fmap, Hy. simpl. by rewrite Hid.
  - intros k Hk. rewrite myApplications_items; [|done|lia|done].
    rewrite drop_ge; [by rewrite take_nil|]. fold sorted.
    etrans; [exact Hcover|]. apply Nat.mul_le_mono_r. lia.
Qed.

Lemma demo_createdAt_distinct i j a b :
  applications Demo.db_c !! i = Some a →
  applications Demo.db_c !! j = Some b →
  Application.createdAt a = Application.createdAt b → i = j.
Proof.
  assert (Hi : ∀ k c, applications Demo.db_c !! k = Some c →
                 (k = 0%N ∧ Application.createdAt c = 500%Z)
                 ∨ (k = 1%N ∧ Application.createdAt c = 1000%Z)).
  { intros k c Hk.
    destruct (decide (k = 0%N)) as [->|H0].
    { left. split; [done|]. vm_compute in Hk. by injection Hk as <-. }
    destruct (decide (k = 1%N)) as [->|H1].
    { right. split; [done|]. vm_compute in Hk. by injection Hk as <-. }
    exfalso.
    assert (Hdom : dom (applications Demo.db_c) = {[0%N; 1%N]})
      by (by vm_compute).
    apply elem_of_dom_2 in Hk. rewrite Hdom in Hk.
    apply elem_of_union in Hk as [Hk|Hk]; apply elem_of_singleton in Hk; done. }
  intros Ha Hb Heq.
  destruct (Hi _ _ Ha) as [[-> Ha']|[-> Ha']],
    (Hi _ _ Hb) as [[-> Hb']|[-> Hb']]; try done; lia.
Qed.

Lemma myApplications_pages_cover_witness :
  ∃ first,
    myApplications Demo.db_c Scenario.S
      (ListQuery.mk (Some 1%Z) (Some 1%Z) None None) = (inr first, Demo.db_c)
    ∧ Pagination.pages (Listing.pagination first) = 2%Z
    ∧ NoDup (mjoin ((λ k, items_of
                            (myApplications Demo.db_c Scenario.S
                               (ListQuery.mk (Some (Z.of_nat k)) (Some 1%Z)
                                  None None)))
                      <$> seq 1 2)).*1
    ∧ items_of (myApplications Demo.db_c Scenario.S
                  (ListQuery.mk (Some 3%Z) (Some 1%Z) None None)) = [].
Proof.
  eexists.
  assert (H : myApplications Demo.db_c Scenario.S
                (ListQuery.mk (Some 1%Z) (Some 1%Z) None None)
              = (inr _, Demo.db_c))
    by (vm_compute; reflexivity).
  destruct (myApplications_pages_cover Demo.db_c Scenario.S 1%Z None _ _
              demo_createdAt_distinct H eq_refl) as (Hnd & _ & _ & Hlate).
  split; [exact H|]. split; [reflexivity|].
  split; [exact Hnd|]. apply (Hlate 3%nat). vm_compute. lia.
Defined.

(** ** Statistics *)

Lemma sum_list_Permutation (l k : list nat) :
  l ≡ₚ k → sum_list l = sum_list k.
Proof. induction 1; simpl; lia. Qed.

Lemma group_by_status_lookup docs s :
  group_by_status docs !! s
  = match length (filter (λ kv, Application.status kv.2 = s) docs) with
    | O => None
    | S n => Some (S n)
    end.
Proof.
  induction docs as [|kv docs IH]; [done|]. simpl.
  destruct (decide (Application.status kv.2 = s)) as [Heq|Hne].
  - rewrite Heq, lookup_insert_eq, IH, filter_cons_True by done. simpl.
    by destruct (length _).
  - rewrite lookup_insert_ne, IH, filter_cons_False by done. done.
Qed.

Lemma group_by_status_sum docs :
  sum_list (map_to_list (group_by_status docs)).*2 = length docs.
Proof.
  induction docs as [|kv docs IH]; [done|]. simpl.
  set (g := group_by_status docs) in *. set (s := Application.status kv.2).
  destruct (g !! s) as [n|] eqn:Hs; simpl.
  - rewrite <- (insert_delete_eq g).
    rewrite (sum_list_Permutation _ _
               (fmap_Permutation snd _ _
                  (map_to_list_insert _ s (S n) (lookup_delete_eq g s)))).
    assert (Hg : sum_list (map_to_list g).*2
                 = (n + sum_list (map_to_list (delete s g)).*2)%nat).
    { etrans; [symmetry; apply sum_list_Permutation, fmap_Permutation,
                 (map_to_list_delete g s n Hs)|]. done. }
    change (sum_list ((s, S n) :: map_to_list (delete s g)).*2)
      with (S n + sum_list (map_to_list (delete s g)).*2)%nat.
    lia.
  - rewrite (sum_list_Permutation _ _
               (fmap_Permutation snd _ _ (map_to_list_insert _ s 1%nat Hs))).
    change (sum_list ((s, 1%nat) :: map_to_list g).*2)
      with (1 + sum_list (map_to_list g).*2)%nat.
    lia.
Qed.

Lemma reduce_insert_lookup (l : list (string * nat)) : ∀ (acc : gmap string nat) k,
  NoDup l.*1 →
  foldl (λ acc stat, <[stat.1 := stat.2]> acc) acc l !! k
  = match (list_to_map l : gmap string nat) !! k with
    | Some v => Some v
    | None => acc !! k
    end.
Proof.
  induction l as [|[k0 v0] l IH]; intros acc k Hnd; [done|].
  apply NoDup_cons in Hnd as [Hk0 Hnd]. simpl. rewrite IH by done.
  destruct (decide (k = k0)) as [->|Hne].
  - rewrite lookup_insert_eq.
    by rewrite (not_elem_of_list_to_map_1 _ _ Hk0), lookup_insert_eq.
  - rewrite !lookup_insert_ne by done. done.
Qed.

Lemma reduce_map_to_list (m : gmap string nat) :
  foldl (λ acc stat, <[stat.1 := stat.2]> acc) (∅ : gmap string nat)
    (map_to_list m) = m.
Proof.
  apply map_eq. intros k.
  rewrite reduce_insert_lookup by apply NoDup_fst_map_to_list.
  rewrite list_to_map_to_list, lookup_empty. by destruct (m !! k).
Qed.

Lemma count_status st j stu r s :
  length (filter (λ kv, Application.status kv.2 = s)
            (Application_find st (Query.mk j stu r None)))
  = Application_countDocuments st (Query.mk j stu r (Some s)).
Proof.
  unfold Application_countDocuments, Application_find.
  rewrite list_filter_filter. f_equal.
  induction (map_to_list (applications st)) as [|kv l IH]; [done|].
  rewrite !filter_cons, IH.
  destruct (decide (Application.status kv.2 = s
                    ∧ matches (Query.mk j stu r None) kv.2)) as [H|H],
    (decide (matches (Query.mk j stu r (Some s)) kv.2)) as [H'|H'];
    try done; exfalso; unfold matches in *; simpl in *; tauto.
Qed.

(** X17 -- the statistics of [statsOverview] are scoped to the caller: a
    recruiter's cover the applications whose recruiter is the caller, an
    administrator's cover all.  [total] is their number; [byStatus] maps
    a status to the number of them in that status, is silent on every
    status in which there is none, and its counts add up to [total].
    The database is unchanged. *)
Theorem statsOverview_counts st user stats st' :
  statsOverview st user = (inr stats, st') →
  st' = st
  ∧ Stats.total stats
    = Application_countDocuments st
        (Query.mk None None
           (if bool_decide (User.role user = User.recruiter)
            then Some (User._id user) else None)
           None)
  ∧ (∀ s n, Stats.byStatus stats !! s = Some n ↔
       n ≠ 0%nat
       ∧ n = Application_countDocuments st
               (Query.mk None None
                  (if bool_decide (User.role user = User.recruiter)
                   then Some (User._id user) else None)
                  (Some s)))
  ∧ sum_list (map_to_list (Stats.byStatus stats)).*2 = Stats.total stats.
Proof.
  unfold statsOverview. intros H.
  destruct (authorize _ user); simpl in H; [|done].
  injection H as <- <-. simpl.
  unfold Application_aggregate. rewrite reduce_map_to_list.
  set (scope := if bool_decide (User.role user = User.recruiter)
                then Some (User._id user) else None).
  assert (Hq : (if bool_decide (User.role user = User.recruiter)
                then Query.mk None None (Some (User._id user)) None
                else Query.empty) = Query.mk None None scope None)
    by (unfold scope; by case_bool_decide).
  rewrite Hq. split; [done|]. split; [done|]. split.
  - intros s n. rewrite group_by_status_lookup, count_status.
    destruct (Application_countDocuments st _) as [|c]; split.
    + done.
    + intros [? ->]. done.
    + intros [= <-]. done.
    + intros [_ ->]. done.
  - apply group_by_status_sum.
Qed.

Lemma statsOverview_counts_witness :
  ∃ stats,
    statsOverview Demo.db_c Scenario.R = (inr stats, Demo.db_c)
    ∧ Stats.total stats = 2%nat
    ∧ Stats.byStatus stats !! "approved" = Some 1%nat
    ∧ Stats.byStatus stats !! "rejected" = None
    ∧ sum_list (map_to_list (Stats.byStatus stats)).*2 = Stats.total stats.
Proof.
  eexists.
  assert (H : statsOverview Demo.db_c Scenario.R = (inr _, Demo.db_c))
    by (vm_compute; reflexivity).
  destruct (statsOverview_counts _ _ _ _ H) as (_ & _ & _ & Hsum).
  split; [exact H|]. split; [reflexivity|]. split; [reflexivity|].
  split; [reflexivity|]. exact Hsum.
Defined.

(** X18 -- the dashboard agrees with the list: for a recruiter, the
    [total] that [receivedApplications] reports for a status filter (and
    no job filter) is the entry of that status in the [byStatus] of
    [statsOverview], or 0 when the entry is missing; without a status
    filter it is the [total] of the statistics. *)
Theorem stats_agree_with_received st user q l stats :
  statsOverview st user = (inr stats, st) →
  receivedApplications st user q = (inr l, st) →
  ListQuery.jobId q = None →
  Pagination.total (Listing.pagination l)
  = match truthy (ListQuery.status q) with
    | Some s => Z.of_nat (default 0%nat (Stats.byStatus stats !! s))
    | None => Z.of_nat (Stats.total stats)
    end.
Proof.
  intros Hstats Hrec Hjob.
  apply receivedApplications_inr in Hrec as (Hrole & _ & _ & ->). simpl.
  apply statsOverview_counts in Hstats as (_ & Htotal & Hby & _).
  rewrite (bool_decide_eq_true_2 _ Hrole) in Htotal.
  assert (Hby' : ∀ s n, Stats.byStatus stats !! s = Some n ↔
            n ≠ 0%nat
            ∧ n = Application_countDocuments st
                    (Query.mk None None (Some (User._id user)) (Some s))).
  { intros s n. rewrite Hby. by rewrite (bool_decide_eq_true_2 _ Hrole). }
  rewrite Hjob. destruct (truthy (ListQuery.status q)) as [s|].
  - f_equal. destruct (Stats.byStatus stats !! s) as [n|] eqn:Hn; simpl.
    + apply Hby' in Hn as [_ Hn]. congruence.
    + destruct (Application_countDocuments st
                  (Query.mk None None (Some (User._id user)) (Some s)))
        as [|c] eqn:Hc; [done|].
      assert (Stats.byStatus stats !! s = Some (S c)) as Hsome.
      { apply Hby'. by rewrite Hc. }
      congruence.
  - by rewrite Htotal.
Qed.

Lemma stats_agree_with_received_witness :
  ∃ l stats,
    statsOverview Demo.db_c Scenario.R = (inr stats, Demo.db_c)
    ∧ receivedApplications Demo.db_c Scenario.R
        (ListQuery.mk None None (Some "approved") None) = (inr l, Demo.db_c)
    ∧ Pagination.total (Listing.pagination l) = 1%Z
    ∧ Pagination.total (Listing.pagination l)
      = Z.of_nat (default 0%nat (Stats.byStatus stats !! "approved")).
Proof.
  eexists _, _.
  assert (Hs : statsOverview Demo.db_c Scenario.R = (inr _, Demo.db_c))
    by (vm_compute; reflexivity).
  assert (Hr : receivedApplications Demo.db_c Scenario.R
                 (ListQuery.mk None None (Some "approved") None)
               = (inr _, Demo.db_c))
    by (vm_compute; reflexivity).
  split; [exact Hs|]. split; [exact Hr|]. split; [reflexivity|].
  exact (stats_agree_with_received _ _ _ _ _ Hs Hr eq_refl).
Defined.

(** ** Creation *)

(** X20 -- a student's well-formed submission that passes the four
    checks (the job exists, is active, is not past its deadline, and has
    no application of the student) for a job whose [recruiter] names no
    account is answered "Server error" (500), and nothing is stored: no
    application, no count. *)
Theorem submitApplication_dangling_recruiter st now user body j job :
  User.role user = User.student →
  validateApplication body = true →
  jobId body = JobId j →
  jobs st !! j = Some job →
  Job.status job = "active" →
  (∀ deadline, Job.applicationDeadline job = Some deadline →
               (now ≤ deadline)%Z) →
  (∀ i a, applications st !! i = Some a →
          ¬ applied j (User._id user) a) →
  users st !! Job.recruiter job = None →
  submitApplication st now user body = (inl ServerError, st).
Proof.
  intros Hrole%authorize_student Hval Hid Hjob Hact Hdl Hone%findOne_None Hrec.
  unfold submitApplication. rewrite Hrole, Hval, Hid, Hjob. simpl.
  rewrite (bool_decide_eq_true_2 _ Hact). simpl.
  replace (match Job.applicationDeadline job with
           | Some deadline => bool_decide (deadline < now)%Z
           | None => false
           end) with false.
  2:{ destruct (Job.applicationDeadline job) as [d|] eqn:Hd; [|done].
      symmetry. apply bool_decide_eq_false. specialize (Hdl d eq_refl). lia. }
  by rewrite Hone, Hrec.
Qed.

Lemma submitApplication_dangling_recruiter_witness :
  submitApplication
    (set_jobs Scenario.db0 {[ 12%N := Job.mk 9 "active" None 0 ]}) 1000
    Scenario.S (mkApplyBody (JobId 12) None [])
  = (inl ServerError,
     set_jobs Scenario.db0 {[ 12%N := Job.mk 9 "active" None 0 ]}).
Proof.
  apply (submitApplication_dangling_recruiter _ _ _ _ 12%N
           (Job.mk 9 "active" None 0)).
  - reflexivity.
  - reflexivity.
  - reflexivity.
  - reflexivity.
  - reflexivity.
  - intros d [=].
  - intros i a Ha. simpl in Ha. by rewrite lookup_empty in Ha.
  - reflexivity.
Defined.
